(** * Prompt resolution and provider-prompt mapping (src/prompts/index.ts)

    A shallow embedding of the three exported functions of
    [src/prompts/index.ts]:

    - [readProviderPromptMap] (lines 32-79),
    - [processPrompt] (lines 88-167),
    - [readPrompts] (lines 175-206).

    Conventions.

    - JavaScript exceptions are the [Throw] case of [Res]; [await] is
      sequencing (the module is single threaded and every promise is awaited
      where it is created).
    - Calls to the collaborators imported from other modules are recorded, in
      program order, in a trace of [Event]s, so that "this call does not
      touch the file system" is a statement about the trace.
    - [logger.debug] calls are left out: they only format a message and have
      no influence on results.  The aggregated [logger.warn] of
      [readPrompts] is kept as an event.
    - Strings are sequences of code units, one [ascii] per unit. *)

From Stdlib Require Import ZArith String Ascii List Lia Bool.
From stdpp Require Import base list strings gmap pretty.

(** ** Exceptions and results *)

Inductive Exn : Type :=
| InvariantFailed (msg : string)  (* thrown by tiny-invariant *)
| JsError (msg : string)          (* [new Error(msg)] *)
| TypeError (msg : string).       (* property read on [undefined] *)

Inductive Res (A : Type) : Type :=
| Ok (a : A)
| Throw (e : Exn).
Arguments Ok {A} a.
Arguments Throw {A} e.

#[global] Instance Res_ret : MRet Res := fun A a => Ok a.
#[global] Instance Res_bind : MBind Res := fun A B f m =>
  match m with
  | Ok a => f a
  | Throw e => Throw e
  end.

(** [invariant(cond, msg)] of tiny-invariant. *)
Definition invariant (cond : bool) (msg : string) : Res unit :=
  if cond then Ok tt else Throw (InvariantFailed msg).

(** ** JavaScript string helpers used by the module *)

Definition backslash : ascii := ascii_of_nat 92.
Definition dquote : ascii := ascii_of_nat 34.

(** [s.replace(/\\/g, '/')]: every backslash becomes a forward slash. *)
Fixpoint replace_backslashes (s : string) : string :=
  match s with
  | EmptyString => EmptyString
  | String c rest =>
      String (if Ascii.eqb c backslash then "/"%char else c)
             (replace_backslashes rest)
  end.

Definition hex_digit (n : nat) : ascii :=
  match n with
  | 0 => "0" | 1 => "1" | 2 => "2" | 3 => "3" | 4 => "4" | 5 => "5"
  | 6 => "6" | 7 => "7" | 8 => "8" | 9 => "9" | 10 => "a" | 11 => "b"
  | 12 => "c" | 13 => "d" | 14 => "e" | _ => "f"
  end%char.

(** One code unit inside a JSON string literal (QuoteJSONString). *)
Definition json_escape (c : ascii) : string :=
  let n := nat_of_ascii c in
  if Nat.eqb n 8 then "\b"
  else if Nat.eqb n 9 then "\t"
  else if Nat.eqb n 10 then "\n"
  else if Nat.eqb n 12 then "\f"
  else if Nat.eqb n 13 then "\r"
  else if Nat.eqb n 34 then String backslash (String dquote EmptyString)
  else if Nat.eqb n 92 then String backslash (String backslash EmptyString)
  else if Nat.ltb n 32 then
    "\u00" +:+ String (hex_digit (n / 16)) (String (hex_digit (n mod 16)) EmptyString)
  else String c EmptyString.

Fixpoint json_escape_all (s : string) : string :=
  match s with
  | EmptyString => EmptyString
  | String c rest => json_escape c +:+ json_escape_all rest
  end.

(** [JSON.stringify(s)] for a string [s]. *)
Definition JSON_stringify_string (s : string) : string :=
  String dquote (json_escape_all s +:+ String dquote EmptyString).

(** [`${JSON.stringify(v)}`] for [v] a string or [undefined]. *)
Definition JSON_stringify_raw (v : option string) : string :=
  match v with
  | Some s => JSON_stringify_string s
  | None => "undefined"
  end.

(** Truthiness of an optional callable: a function is always truthy. *)
Definition is_set {A} (v : option A) : bool :=
  match v with
  | Some _ => true
  | None => false
  end.

(** Truthiness of a value that is a string or [undefined]. *)
Definition truthy_str (v : option string) : bool :=
  match v with
  | Some s => negb (String.eqb s EmptyString)
  | None => false
  end.

(** ** Prompt records

    [Partial<Prompt>] is the input record: every field may be missing.
    [Prompt] is the resolved record.  Its [label] is declared [string], but
    the cast [prompt as Prompt] at line 100 keeps a missing label missing and
    line 191 guards against a falsy one, so the field is optional here too.
    A callable is represented by its name. *)

Definition PromptFunction := string.

Record PartialPrompt : Type := mkPartial {
  raw : option string;
  label : option string;
  function : option PromptFunction;
}.

Record Prompt : Type := mkPrompt {
  p_raw : string;
  p_label : option string;
  p_function : option PromptFunction;
}.

(** The object literal [{ raw: path }] of line 129. *)
Definition rawOnly (path : string) : PartialPrompt :=
  {| raw := Some path; label := None; function := None |}.

(** [prompt as Prompt], once [prompt.raw] is known to be the string [r]. *)
Definition asPrompt (prompt : PartialPrompt) (r : string) : Prompt :=
  {| p_raw := r; p_label := label prompt; p_function := function prompt |}.

(** The fields of a resolved prompt, read back as a partial. *)
Definition toPartial (p : Prompt) : PartialPrompt :=
  {| raw := Some (p_raw p); label := p_label p; function := p_function p |}.

(** Output of [parsePathOrGlob] (lines 107-117). *)
Record ResolvedPathInfo : Type := mkInfo {
  extension : option string;
  functionName : option string;
  isPathPattern : bool;
  filePath : string;
}.

(** The seven branches of the dispatch chain (lines 145-165). *)
Inductive Format : Type :=
| FJson | FJsonl | FJavascript | FMarkdown | FPython | FTxt | FYaml.

(** ** Traces and the resolver monad *)

Inductive Event : Type :=
| EvClassify (candidate : string)                 (* maybeFilePath *)
| EvDecompose (basePath candidate : string)       (* parsePathOrGlob *)
| EvGlob (pattern : string)                       (* globSync *)
| EvString (prompt : PartialPrompt)               (* processString *)
| EvHandler (f : Format) (path : string) (prompt : PartialPrompt)
            (selector : option string)            (* a format handler *)
| EvWarn (msg : string).                          (* logger.warn *)

Definition M (A : Type) : Type := (list Event * Res A)%type.

#[global] Instance M_ret : MRet M := fun A a => ([], Ok a).
#[global] Instance M_bind : MBind M := fun A B f m =>
  match m with
  | (t, Ok a) => let '(t', r) := f a in (t ++ t', r)
  | (t, Throw e) => (t, Throw e)
  end.

Definition emit (e : Event) : M unit := ([e], Ok tt).
Definition throw {A} (e : Exn) : M A := ([], Throw e).
Definition lift {A} (r : Res A) : M A := ([], r).
Definition trace {A} (m : M A) : list Event := fst m.
Definition result {A} (m : M A) : Res A := snd m.

(** [for (const x of xs) { acc = body(acc, x) }] *)
Fixpoint for_of {A X} (xs : list X) (acc : A) (body : A → X → M A) : M A :=
  match xs with
  | [] => mret acc
  | x :: rest => acc' ← body acc x; for_of rest acc' body
  end.

Fixpoint res_for_of {A X} (xs : list X) (acc : A) (body : A → X → Res A) : Res A :=
  match xs with
  | [] => mret acc
  | x :: rest => acc' ← body acc x; res_for_of rest acc' body
  end.

(** ** Collaborators

    The functions imported from other modules (lines 1-22).  Their bodies
    are not part of this module, so the resolver is parameterised by them.
    Handlers may throw; the classifier, the decomposition and the glob
    listing are total. *)

(** Caller input of [readPrompts] (line 176). *)
Inductive PromptInput : Type :=
| InputString (s : string)
| InputList (items : list (string + PartialPrompt))
| InputRecord (entries : list (string * string)).

Record World : Type := mkWorld {
  maybeFilePath : string → bool;
  parsePathOrGlob : string → string → ResolvedPathInfo;
  globSync : string → list string;
  isJavascriptFile : string → bool;
  processJsonFile : string → PartialPrompt → Res (list Prompt);
  processJsonlFile : string → PartialPrompt → Res (list Prompt);
  processJsFile : string → PartialPrompt → option string → Res (list Prompt);
  processMarkdownFile : string → PartialPrompt → Res (list Prompt);
  processPythonFile : string → PartialPrompt → option string → Res (list Prompt);
  processTxtFile : string → PartialPrompt → Res (list Prompt);
  processYamlFile : string → PartialPrompt → Res (list Prompt);
  normalizeInput : PromptInput → Res (list PartialPrompt);
  extractVariablesFromTemplates : list string → list string;
  getEnvBool : string → bool;
}.

(** The message of the invariant at lines 93-96. *)
Definition raw_invariant_message (v : option string) : string :=
  "prompt.raw must be a string, but got " +:+ JSON_stringify_raw v.

(** Modelled from the spec: [processString] of [./processors/string], which
    is imported at line 19 and whose body is not in this module.  Literal
    string processing wraps the raw text as a single prompt; the label is the
    one the partial carries (the keyed-mapping round trip of section 8) and
    defaults to the raw text.  A partial without [raw] is the contract
    violation of section 4.2, step 1. *)
Definition processString (prompt : PartialPrompt) : Res (list Prompt) :=
  match raw prompt with
  | Some r =>
      Ok [ {| p_raw := r;
              p_label := Some (default r (label prompt));
              p_function := None |} ]
  | None => Throw (InvariantFailed (raw_invariant_message None))
  end.

Section Resolver.

Variable W : World.

(** A recorded call of a format handler. *)
Definition callHandler (f : Format) (path : string) (prompt : PartialPrompt)
    (selector : option string) (r : Res (list Prompt)) : M (list Prompt) :=
  _ ← emit (EvHandler f path prompt selector); lift r.

Definition callString (prompt : PartialPrompt) : M (list Prompt) :=
  _ ← emit (EvString prompt); lift (processString prompt).

Definition ext_is (info : ResolvedPathInfo) (e : string) : bool :=
  match extension info with
  | Some x => String.eqb x e
  | None => false
  end.

(** [extension && isJavascriptFile(extension)] *)
Definition ext_is_javascript (info : ResolvedPathInfo) : bool :=
  match extension info with
  | Some x => negb (String.eqb x EmptyString) && isJavascriptFile W x
  | None => false
  end.

(** [extension && ['.yml', '.yaml'].includes(extension)] *)
Definition ext_is_yaml (info : ResolvedPathInfo) : bool :=
  match extension info with
  | Some x =>
      negb (String.eqb x EmptyString)
      && (String.eqb x ".yml" || String.eqb x ".yaml")
  | None => false
  end.

(** Lines 145-166: the dispatch chain. *)
Definition dispatch (info : ResolvedPathInfo) (prompt : PartialPrompt)
    : M (list Prompt) :=
  let path := filePath info in
  let fn := functionName info in
  if ext_is info ".json" then
    callHandler FJson path prompt None (processJsonFile W path prompt)
  else if ext_is info ".jsonl" then
    callHandler FJsonl path prompt None (processJsonlFile W path prompt)
  else if ext_is_javascript info then
    callHandler FJavascript path prompt fn (processJsFile W path prompt fn)
  else if ext_is info ".md" then
    callHandler FMarkdown path prompt None (processMarkdownFile W path prompt)
  else if ext_is info ".py" then
    callHandler FPython path prompt fn (processPythonFile W path prompt fn)
  else if ext_is info ".txt" then
    callHandler FTxt path prompt None (processTxtFile W path prompt)
  else if ext_is_yaml info then
    callHandler FYaml path prompt None (processYamlFile W path prompt)
  else mret [].

(** Lines 88-167, with the recursion budget as the structural argument:
    the guard [maxRecursionDepth > 0] is the successor case and the
    recursive call receives the predecessor. *)
Fixpoint processPrompt_depth (depth : nat) (prompt : PartialPrompt)
    (basePath : string) : M (list Prompt) :=
  match raw prompt with
  | None => throw (InvariantFailed (raw_invariant_message None))
  | Some r =>
      if is_set (function prompt) then mret [asPrompt prompt r]
      else
        _ ← emit (EvClassify r);
        if negb (maybeFilePath W r) then callString prompt
        else
          _ ← emit (EvDecompose basePath r);
          let info := parsePathOrGlob W basePath r in
          match isPathPattern info, depth with
          | true, S depth' =>
              let pattern := replace_backslashes (filePath info) in
              _ ← emit (EvGlob pattern);
              let globbedPath := globSync W pattern in
              prompts ← for_of globbedPath []
                (fun prompts globbedFilePath =>
                   processedPrompts ←
                     processPrompt_depth depth' (rawOnly globbedFilePath)
                       basePath;
                   mret (prompts ++ processedPrompts));
              if Nat.eqb (length prompts) 0 then
                fallback ← callString prompt;
                mret (prompts ++ fallback)
              else mret prompts
          | _, _ => dispatch info prompt
          end
  end.

(** [processPrompt(prompt, basePath, maxRecursionDepth)] for an integer
    budget; a budget of zero or less never expands. *)
Definition processPrompt (prompt : PartialPrompt) (basePath : string)
    (maxRecursionDepth : Z) : M (list Prompt) :=
  processPrompt_depth (Z.to_nat maxRecursionDepth) prompt basePath.

(** Lines 126-134: the loop over the listing [paths], each matched path
    resolved from the fresh partial [{ raw: path }] with budget [d]. *)
Definition expandMatches (basePath : string) (d : Z) (paths : list string)
    : M (list Prompt) :=
  for_of paths []
    (fun prompts globbedFilePath =>
       processedPrompts ← processPrompt (rawOnly globbedFilePath) basePath d;
       mret (prompts ++ processedPrompts)).

(** An extension that is absent or is no key of the dispatch table. *)
Definition unrecognizedExtension (ext : option string) : Prop :=
  match ext with
  | None => True
  | Some x =>
      (x ∉ [".json"; ".jsonl"; ".md"; ".py"; ".txt"; ".yml"; ".yaml"])
      ∧ isJavascriptFile W x = false
  end.

(** ** [readPrompts] (lines 175-206) *)

Definition no_prompts_message (v : option string) : string :=
  "There are no prompts in " +:+ JSON_stringify_raw v.

Definition newline : string := String (ascii_of_nat 10) EmptyString.
Definition quote : string := String dquote EmptyString.

(** The message of lines 197-202 for the list [promptsWithoutVars]. *)
Definition warning_message (promptsWithoutVars : list string) : string :=
  let n := length promptsWithoutVars in
  "Warning: " +:+ pretty n +:+ " prompt"
  +:+ (if Nat.ltb 1 n then "s" else EmptyString)
  +:+ " without {{variables}} detected." +:+ newline
  +:+ "Examples: " +:+ quote
  +:+ String.concat (quote +:+ ", " +:+ quote) (take 3 promptsWithoutVars)
  +:+ quote +:+ (if Nat.ltb 3 n then ", ..." else EmptyString) +:+ newline
  +:+ "Most promptfoo users include variables in their tests when performing evals. "
  +:+ "You can disable this warning by setting PROMPTFOO_DISABLE_NO_VARIABLE_WARNING=true.".

(** Lines 188-194: the body of the inner loop, on the pair of accumulators
    [(prompts, promptsWithoutVars)]. *)
Definition collectPrompt (acc : list Prompt * list string)
    (processedPrompt : Prompt) : list Prompt * list string :=
  let '(prompts, promptsWithoutVars) := acc in
  let variables :=
    extractVariablesFromTemplates W [p_raw processedPrompt] in
  let promptsWithoutVars' :=
    if Nat.eqb (length variables) 0
       && negb (getEnvBool W "PROMPTFOO_DISABLE_NO_VARIABLE_WARNING")
    then
      promptsWithoutVars ++
        [ if truthy_str (p_label processedPrompt)
          then default EmptyString (p_label processedPrompt)
          else String.substring 0 50 (p_raw processedPrompt) ]
    else promptsWithoutVars in
  (prompts ++ [processedPrompt], promptsWithoutVars').

(** Lines 183-195: the body of the outer loop. *)
Definition readOne (basePath : string) (acc : list Prompt * list string)
    (prompt : PartialPrompt) : M (list Prompt * list string) :=
  promptBatch ← processPrompt prompt basePath 1;
  if Nat.eqb (length promptBatch) 0 then
    throw (JsError (no_prompts_message (raw prompt)))
  else mret (fold_left collectPrompt promptBatch acc).

Definition readPrompts (promptPathOrGlobs : PromptInput) (basePath : string)
    : M (list Prompt) :=
  promptPartials ← lift (normalizeInput W promptPathOrGlobs);
  acc ← for_of promptPartials ([], []) (readOne basePath);
  let '(prompts, promptsWithoutVars) := acc in
  _ ← (if Nat.ltb 0 (length promptsWithoutVars)
       then emit (EvWarn (warning_message promptsWithoutVars))
       else mret tt);
  mret prompts.

End Resolver.

(** ** Provider configuration

    [config.providers] is a string, a function or an array whose entries are
    strings, functions or objects (the declared union).  The mapper decides
    between the two object shapes by looking at the object itself
    ([provider.id], [Object.keys(provider)[0]]), so an object entry is kept
    untyped: its own properties, listed in [Object.keys] order with distinct
    keys.  Property values are [undefined], [null], strings, functions,
    arrays and objects; a function is represented by its source text.  An
    entry may also be [null], which [typeof] reports as an object. *)

#[local] Set Warnings "-register-all".

Inductive JsVal : Type :=
| VUndef
| VNull
| VStr (s : string)
| VFun (src : string)
| VArr (items : list JsVal)
| VObj (fields : list (string * JsVal)).

Inductive ProviderEntry : Type :=
| PId (id : string)
| PFunction (src : string)
| PNull
| PObject (fields : list (string * JsVal)).

Inductive Providers : Type :=
| ProvidersUndefined
| ProvidersString (id : string)
| ProvidersFunction (src : string)
| ProvidersList (entries : list ProviderEntry).

(** [Partial<UnifiedConfig>]: only [providers] is read by this module. *)
Record UnifiedConfig : Type := mkConfig { providers : Providers }.

(** ToBoolean. *)
Definition truthy (v : JsVal) : bool :=
  match v with
  | VUndef => false
  | VNull => false
  | VStr s => negb (String.eqb s EmptyString)
  | _ => true
  end.

(** [a || b] *)
Definition js_or (a b : JsVal) : JsVal := if truthy a then a else b.

(** ToString, as applied to a computed property key [ret[v]]. *)
Fixpoint js_toString (v : JsVal) : string :=
  match v with
  | VUndef => "undefined"
  | VNull => "null"
  | VStr s => s
  | VFun src => src
  | VArr items =>
      String.concat ","
        (map (fun x => match x with
                       | VUndef => EmptyString
                       | VNull => EmptyString
                       | _ => js_toString x
                       end) items)
  | VObj _ => "[object Object]"
  end.

(** [o[k]] for the own properties [fields] of an object [o]. *)
Fixpoint field (k : string) (fields : list (string * JsVal)) : JsVal :=
  match fields with
  | [] => VUndef
  | (k', v) :: rest => if String.eqb k' k then v else field k rest
  end.

(** [Object.keys(o)[0]] *)
Definition firstKey (fields : list (string * JsVal)) : JsVal :=
  match fields with
  | [] => VUndef
  | (k, _) :: _ => VStr k
  end.

(** [v.k] for a key [k] that no prototype defines (the mapper reads [id]
    and [prompts] only): a read on [undefined] or [null] throws, strings,
    functions and arrays have no such property. *)
Definition getProp (v : JsVal) (k : string) : Res JsVal :=
  match v with
  | VUndef =>
      Throw (TypeError
        ("Cannot read properties of undefined (reading '" +:+ k +:+ "')"))
  | VNull =>
      Throw (TypeError
        ("Cannot read properties of null (reading '" +:+ k +:+ "')"))
  | VObj fields => Ok (field k fields)
  | _ => Ok VUndef
  end.

(** [prompt.label] as a value. *)
Definition labelValue (p : Prompt) : JsVal :=
  match p_label p with
  | Some l => VStr l
  | None => VUndef
  end.

Definition id_invariant_message : string :=
  "You must specify an `id` on the Provider when you override options.prompts".

(** Lines 55-76: the body of the loop over [config.providers].  A [null]
    entry passes the [typeof] test of line 56 and the read [provider.id] of
    line 58 throws. *)
Definition mapProvider (allPrompts : JsVal) (ret : gmap string JsVal)
    (provider : ProviderEntry) : Res (gmap string JsVal) :=
  match provider with
  | PNull => _ ← getProp VNull "id"; mret ret
  | PObject rawProvider =>
      if truthy (field "id" rawProvider) then
        _ ← invariant (truthy (field "id" rawProvider)) id_invariant_message;
        let ret1 :=
          <[ js_toString (field "id" rawProvider) :=
               js_or (field "prompts" rawProvider) allPrompts ]> ret in
        if truthy (field "label" rawProvider) then
          mret (<[ js_toString (field "label" rawProvider) :=
                     js_or (field "prompts" rawProvider) allPrompts ]> ret1)
        else mret ret1
      else
        let originalId := firstKey rawProvider in
        let providerObject := field (js_toString originalId) rawProvider in
        innerId ← getProp providerObject "id";
        let id := js_or innerId originalId in
        innerPrompts ← getProp (field (js_toString originalId) rawProvider) "prompts";
        mret (<[ js_toString id := js_or innerPrompts allPrompts ]> ret)
  | _ => mret ret
  end.

(** Lines 32-79. *)
Definition readProviderPromptMap (config : UnifiedConfig)
    (parsedPrompts : list Prompt) : Res (gmap string JsVal) :=
  let ret : gmap string JsVal := ∅ in
  match providers config with
  | ProvidersUndefined => mret ret
  | ProvidersString EmptyString => mret ret
  | ProvidersString id =>
      mret {[ id := VArr (map labelValue parsedPrompts) ]}
  | ProvidersFunction _ =>
      mret {[ "Custom function" := VArr (map labelValue parsedPrompts) ]}
  | ProvidersList entries =>
      res_for_of entries ret (mapProvider (VArr (map labelValue parsedPrompts)))
  end.

(** ** An example environment

    A small directory and simple collaborators, used to run the resolver on
    concrete inputs.  The directory [prompts/] holds two text files and one
    file whose extension has no handler. *)

Module Sample.

Definition has_char (c : ascii) (s : string) : bool :=
  existsb (Ascii.eqb c) (list_ascii_of_string s).

(** A candidate is path-like when it contains a separator. *)
Definition looksLikePath (s : string) : bool := has_char "/" s.

(** The trailing dot-segment of a path. *)
Fixpoint trailingExtension (s : string) : option string :=
  match s with
  | EmptyString => None
  | String c rest =>
      match trailingExtension rest with
      | Some e => Some e
      | None => if Ascii.eqb c "." then Some s else None
      end
  end.

Definition hasGlobMagic (s : string) : bool :=
  existsb (fun c => has_char c s) ["*"; "?"; "{"; "}"; "["; "]"]%char.

Definition decompose (basePath candidate : string) : ResolvedPathInfo :=
  {| extension := trailingExtension candidate;
     functionName := None;
     isPathPattern := hasGlobMagic candidate;
     filePath := basePath +:+ candidate |}.

Definition files : list (string * string) :=
  [ ("prompts/a.txt", "Hello {{name}}");
    ("prompts/b.txt", "Goodbye");
    ("prompts/notes.xyz", "scratch") ].

Definition glob (pattern : string) : list string :=
  if String.eqb pattern "prompts/*.txt" then ["prompts/a.txt"; "prompts/b.txt"]
  else if String.eqb pattern "prompts/*.xyz" then ["prompts/notes.xyz"]
  else if String.eqb pattern "prompts/*" then map fst files
  else [].

Fixpoint readFile (fs : list (string * string)) (path : string) : Res string :=
  match fs with
  | [] => Throw (JsError ("ENOENT: no such file or directory, open '" +:+ path +:+ "'"))
  | (name, content) :: rest =>
      if String.eqb name path then Ok content else readFile rest path
  end.

(** One prompt per file, labelled by the path (and by the label of the
    partial it was called with, when there is one). *)
Definition textHandler (path : string) (prompt : PartialPrompt)
    : Res (list Prompt) :=
  content ← readFile files path;
  mret [ {| p_raw := content;
            p_label :=
              Some (match label prompt with
                    | Some l => l +:+ ": " +:+ path +:+ ": " +:+ content
                    | None => path +:+ ": " +:+ content
                    end);
            p_function := None |} ].

Definition isScript (ext : string) : bool :=
  existsb (String.eqb ext)
    [".js"; ".cjs"; ".mjs"; ".ts"; ".cts"; ".mts"; ".tsx"; ".jsx"].

(** Modelled from the spec: [normalizeInput] of [./utils] (section 4.4),
    imported at line 22. *)
Definition normalize (input : PromptInput) : Res (list PartialPrompt) :=
  match input with
  | InputString s => Ok [rawOnly s]
  | InputList items =>
      Ok (map (fun item => match item with
                           | inl s => rawOnly s
                           | inr partial => partial
                           end) items)
  | InputRecord entries =>
      Ok (map (fun '(key, value) =>
                 {| raw := Some value; label := Some key; function := None |})
              entries)
  end.

Definition variablesOf (templates : list string) : list string :=
  if existsb (has_char "{") templates then ["name"] else [].

Definition world : World :=
  {| maybeFilePath := looksLikePath;
     parsePathOrGlob := decompose;
     globSync := glob;
     isJavascriptFile := isScript;
     processJsonFile := textHandler;
     processJsonlFile := textHandler;
     processJsFile := fun path prompt _ => textHandler path prompt;
     processMarkdownFile := textHandler;
     processPythonFile := fun path prompt _ => textHandler path prompt;
     processTxtFile := textHandler;
     processYamlFile := textHandler;
     normalizeInput := normalize;
     extractVariablesFromTemplates := variablesOf;
     getEnvBool := fun _ => false |}.

End Sample.

(** The example environment with a stale listing: [prompts/gone.txt] is still
    listed for [prompts/*.txt] but can no longer be read. *)
Module SampleStale.

Definition glob (pattern : string) : list string :=
  if String.eqb pattern "prompts/*.txt"
  then ["prompts/a.txt"; "prompts/gone.txt"; "prompts/b.txt"]
  else Sample.glob pattern.

Definition world : World :=
  {| maybeFilePath := maybeFilePath Sample.world;
     parsePathOrGlob := parsePathOrGlob Sample.world;
     globSync := glob;
     isJavascriptFile := isJavascriptFile Sample.world;
     processJsonFile := processJsonFile Sample.world;
     processJsonlFile := processJsonlFile Sample.world;
     processJsFile := processJsFile Sample.world;
     processMarkdownFile := processMarkdownFile Sample.world;
     processPythonFile := processPythonFile Sample.world;
     processTxtFile := processTxtFile Sample.world;
     processYamlFile := processYamlFile Sample.world;
     normalizeInput := normalizeInput Sample.world;
     extractVariablesFromTemplates := extractVariablesFromTemplates Sample.world;
     getEnvBool := getEnvBool Sample.world |}.

End SampleStale.

(** ** Vocabulary of the statements *)

(** [handlerSees P e]: when [e] is a call of a format handler, the partial it
    was called with satisfies [P]. *)
Definition handlerSees (P : PartialPrompt → Prop) (e : Event) : Prop :=
  match e with
  | EvHandler _ _ q _ => P q
  | _ => True
  end.

(** A partial built by the object literal [{ raw: path }] of line 129. *)
Definition isFresh (q : PartialPrompt) : Prop := ∃ g, q = rawOnly g.

(** What a keyed-mapping entry contributes, in the words of lines 69-73: the
    inner value [inner] found under the first key [k] supplies the
    identifier ([inner.id], or [k] when that is falsy) and the prompts
    ([inner.prompts], or all labels when that is falsy). *)
Definition keyedEntryResult (allPrompts : JsVal) (ret : gmap string JsVal)
    (k : string) (inner : JsVal) : Res (gmap string JsVal) :=
  innerId ← getProp inner "id";
  innerPrompts ← getProp inner "prompts";
  mret (<[ (if truthy innerId then js_toString innerId else k)
           := js_or innerPrompts allPrompts ]> ret).

(** [processPrompt(p, basePath)], as called by [readPrompts], returns
    [batch]. *)
Definition resolvesTo (W : World) (basePath : string) (p : PartialPrompt)
    (batch : list Prompt) : Prop :=
  result (processPrompt W p basePath 1) = Ok batch.

(** The handler behind each branch of the dispatch chain, with the arguments
    the chain passes to it: only the script handlers take the function
    selector. *)
Definition handlerOf (W : World) (f : Format) (path : string)
    (prompt : PartialPrompt) (selector : option string) : Res (list Prompt) :=
  match f with
  | FJson => processJsonFile W path prompt
  | FJsonl => processJsonlFile W path prompt
  | FJavascript => processJsFile W path prompt selector
  | FMarkdown => processMarkdownFile W path prompt
  | FPython => processPythonFile W path prompt selector
  | FTxt => processTxtFile W path prompt
  | FYaml => processYamlFile W path prompt
  end.

(** The selector argument the dispatch chain passes to a handler. *)
Definition selectorFor (f : Format) (info : ResolvedPathInfo) : option string :=
  match f with
  | FJavascript | FPython => functionName info
  | _ => None
  end.

(** An extension that some branch of the dispatch chain accepts. *)
Definition recognizedExtension (W : World) (ext : option string) : Prop :=
  ∃ x, ext = Some x
       ∧ (x ∈ [".json"; ".jsonl"; ".md"; ".py"; ".txt"; ".yml"; ".yaml"]
          ∨ (x ≠ EmptyString ∧ isJavascriptFile W x = true)).

Fixpoint has_backslash (s : string) : bool :=
  match s with
  | EmptyString => false
  | String c rest => Ascii.eqb c backslash || has_backslash rest
  end.

(** A glob listing, if [e] is one, was asked for a pattern without
    backslashes. *)
Definition globPatternClean (e : Event) : Prop :=
  match e with
  | EvGlob pattern => has_backslash pattern = false
  | _ => True
  end.

Definition isGlobEvent (e : Event) : bool :=
  match e with
  | EvGlob _ => true
  | _ => false
  end.

Definition isWarnEvent (e : Event) : bool :=
  match e with
  | EvWarn _ => true
  | _ => false
  end.

(** Number of glob listings in a trace. *)
Definition globCount (t : list Event) : nat :=
  length (List.filter isGlobEvent t).

(** A resolved prompt in which the extractor finds no template variable. *)
Definition lacksVariables (W : World) (p : Prompt) : bool :=
  Nat.eqb (length (extractVariablesFromTemplates W [p_raw p])) 0.

(** The name under which the warning of [readPrompts] lists a prompt: its
    label when that is truthy, the first 50 code units of its text
    otherwise. *)
Definition diagnosticName (p : Prompt) : string :=
  match p_label p with
  | Some l => if String.eqb l EmptyString then String.substring 0 50 (p_raw p) else l
  | None => String.substring 0 50 (p_raw p)
  end.

(** The names [readPrompts] collects for its warning: none when the
    suppression flag is set, otherwise the names of the prompts without
    template variables, in order. *)
Definition diagnosticNames (W : World) (prompts : list Prompt) : list string :=
  if getEnvBool W "PROMPTFOO_DISABLE_NO_VARIABLE_WARNING" then []
  else map diagnosticName (List.filter (lacksVariables W) prompts).

(** [W] with other diagnostics collaborators. *)
Definition withDiagnostics (W : World)
    (extract : list string → list string) (env : string → bool) : World :=
  {| maybeFilePath := maybeFilePath W;
     parsePathOrGlob := parsePathOrGlob W;
     globSync := globSync W;
     isJavascriptFile := isJavascriptFile W;
     processJsonFile := processJsonFile W;
     processJsonlFile := processJsonlFile W;
     processJsFile := processJsFile W;
     processMarkdownFile := processMarkdownFile W;
     processPythonFile := processPythonFile W;
     processTxtFile := processTxtFile W;
     processYamlFile := processYamlFile W;
     normalizeInput := normalizeInput W;
     extractVariablesFromTemplates := extract;
     getEnvBool := env |}.

(** The error of reading [id] on [undefined] (line 72). *)
Definition undefined_id_error : Exn :=
  TypeError "Cannot read properties of undefined (reading 'id')".

(** The error of reading [id] on [null] (lines 58 and 72). *)
Definition null_id_error : Exn :=
  TypeError "Cannot read properties of null (reading 'id')".

(** [typeof provider === 'object'] *)
Definition isObjectEntry (provider : ProviderEntry) : bool :=
  match provider with
  | PNull => true
  | PObject _ => true
  | _ => false
  end.

(** An entry that is [null], or an object entry without a truthy [id] whose
    first key holds [undefined] (the empty object among them) or [null]. *)
Definition malformedEntry (provider : ProviderEntry) : Prop :=
  match provider with
  | PNull => True
  | PObject fields =>
      truthy (field "id" fields) = false
      ∧ (field (js_toString (firstKey fields)) fields = VUndef
         ∨ field (js_toString (firstKey fields)) fields = VNull)
  | _ => False
  end.

(** The exception a malformed entry stands for: the read of [id] on the
    [null] or [undefined] value it holds. *)
Definition entryError (provider : ProviderEntry) : Exn :=
  match provider with
  | PNull => null_id_error
  | PObject fields =>
      match field (js_toString (firstKey fields)) fields with
      | VNull => null_id_error
      | _ => undefined_id_error
      end
  | _ => undefined_id_error
  end.





(** * Properties *)

(** ** The resolver monad *)

Lemma bind_ok {A B} (t : list Event) (a : A) (f : A → M B) :
  ((t, Ok a) : M A) ≫= f = (t ++ trace (f a), result (f a)).
Proof. unfold mbind, M_bind, trace, result. by destruct (f a). Qed.

Lemma bind_throw {A B} (t : list Event) (e : Exn) (f : A → M B) :
  ((t, Throw e) : M A) ≫= f = (t, Throw e).
Proof. reflexivity. Qed.

Lemma result_bind {A B} (m : M A) (f : A → M B) :
  result (m ≫= f) =
  match result m with
  | Ok a => result (f a)
  | Throw e => Throw e
  end.
Proof.
  destruct m as [t [a|e]]; [rewrite bind_ok|rewrite bind_throw]; reflexivity.
Qed.

Lemma trace_bind {A B} (m : M A) (f : A → M B) :
  trace (m ≫= f) =
  match result m with
  | Ok a => trace m ++ trace (f a)
  | Throw e => trace m
  end.
Proof.
  destruct m as [t [a|e]]; [rewrite bind_ok|rewrite bind_throw]; reflexivity.
Qed.

Lemma M_eta {A} (m : M A) : m = (trace m, result m).
Proof. by destruct m. Qed.

Lemma emit_bind {B} (e : Event) (m : M B) :
  (emit e ≫= fun _ => m) = (e :: trace m, result m).
Proof. unfold emit. rewrite bind_ok. reflexivity. Qed.

Lemma result_emit_bind {B} (e : Event) (m : M B) :
  result (emit e ≫= fun _ => m) = result m.
Proof. by rewrite emit_bind. Qed.

Lemma for_of_result_throw {A X} (xs : list X) (acc : A) (body : A → X → M A)
    (x : X) (rest : list X) (e : Exn) :
  xs = x :: rest →
  result (body acc x) = Throw e →
  result (for_of xs acc body) = Throw e.
Proof. intros -> H. simpl. by rewrite result_bind, H. Qed.

Lemma for_of_app_result {A X} (xs ys : list X) (acc : A) (body : A → X → M A) :
  result (for_of (xs ++ ys) acc body) =
  match result (for_of xs acc body) with
  | Ok acc' => result (for_of ys acc' body)
  | Throw e => Throw e
  end.
Proof.
  revert acc. induction xs as [|x xs IH]; intros acc; simpl; [done|].
  rewrite !result_bind. destruct (result (body acc x)); [apply IH|done].
Qed.

Lemma for_of_trace_Forall {A X} (P : Event → Prop) (xs : list X) (acc : A)
    (body : A → X → M A) :
  (∀ a x, x ∈ xs → Forall P (trace (body a x))) →
  Forall P (trace (for_of xs acc body)).
Proof.
  revert acc. induction xs as [|x xs IH]; intros acc Hbody; simpl.
  - constructor.
  - rewrite trace_bind.
    assert (Forall P (trace (body acc x))) as Hx
      by (apply Hbody; constructor).
    destruct (result (body acc x)) as [acc'|]; [|done].
    apply Forall_app; split; [done|].
    apply IH. intros a' y Hy. apply Hbody. by constructor.
Qed.

(** ** The resolver *)

Section ResolverFacts.

Variable W : World.

(** The recursive equation of the source: the guard is
    [isPathPattern && maxRecursionDepth > 0] and the recursive call receives
    [maxRecursionDepth - 1]. *)
Lemma processPrompt_unfold (prompt : PartialPrompt) (basePath : string) (d : Z) :
  processPrompt W prompt basePath d =
  match raw prompt with
  | None => throw (InvariantFailed (raw_invariant_message None))
  | Some r =>
      if is_set (function prompt) then mret [asPrompt prompt r]
      else
        _ ← emit (EvClassify r);
        if negb (maybeFilePath W r) then callString prompt
        else
          _ ← emit (EvDecompose basePath r);
          let info := parsePathOrGlob W basePath r in
          if isPathPattern info && (0 <? d)%Z then
            let pattern := replace_backslashes (filePath info) in
            _ ← emit (EvGlob pattern);
            prompts ← for_of (globSync W pattern) []
              (fun prompts globbedFilePath =>
                 processedPrompts ←
                   processPrompt W (rawOnly globbedFilePath) basePath (d - 1);
                 mret (prompts ++ processedPrompts));
            if Nat.eqb (length prompts) 0 then
              fallback ← callString prompt;
              mret (prompts ++ fallback)
            else mret prompts
          else dispatch W info prompt
  end.
Proof.
  unfold processPrompt.
  destruct (Z.ltb_spec 0 d) as [Hd|Hd].
  - replace (Z.to_nat d) with (S (Z.to_nat (d - 1))) by lia.
    simpl. destruct (raw prompt) as [r|]; [|done].
    destruct (is_set _); [done|].
    destruct (maybeFilePath W r); simpl; [|done].
    destruct (isPathPattern _); done.
  - replace (Z.to_nat d) with 0 by lia.
    simpl. destruct (raw prompt) as [r|]; [|done].
    destruct (is_set _); [done|].
    destruct (maybeFilePath W r); simpl; [|done].
    destruct (isPathPattern _); done.
Qed.

(** A dispatch touches one handler at most and never lists the file system. *)
Lemma dispatch_trace (info : ResolvedPathInfo) (prompt : PartialPrompt) :
  trace (dispatch W info prompt) = []
  ∨ ∃ f sel, trace (dispatch W info prompt)
             = [EvHandler f (filePath info) prompt sel].
Proof.
  unfold dispatch, callHandler.
  repeat (match goal with
          | |- context [if ?b then _ else _] => destruct b
          end;
          [right; rewrite emit_bind; simpl; eauto|]).
  by left.
Qed.

Lemma processPrompt_function (p : PartialPrompt) (basePath : string) (d : Z)
    (r : string) (f : PromptFunction) :
  raw p = Some r → function p = Some f →
  processPrompt W p basePath d = ([], Ok [asPrompt p r]).
Proof.
  intros Hr Hf. rewrite processPrompt_unfold, Hr, Hf. reflexivity.
Qed.

Lemma processPrompt_literal (p : PartialPrompt) (basePath : string) (d : Z)
    (r : string) :
  raw p = Some r → function p = None → maybeFilePath W r = false →
  processPrompt W p basePath d = ([EvClassify r; EvString p], processString p).
Proof.
  intros Hr Hf Hm. rewrite processPrompt_unfold, Hr, Hf, Hm. cbn [is_set negb].
  unfold callString. rewrite !emit_bind. reflexivity.
Qed.

Lemma processPrompt_dispatch (p : PartialPrompt) (basePath : string) (d : Z)
    (r : string) :
  raw p = Some r → function p = None → maybeFilePath W r = true →
  isPathPattern (parsePathOrGlob W basePath r) = false ∨ (d ≤ 0)%Z →
  processPrompt W p basePath d =
  (EvClassify r :: EvDecompose basePath r
     :: trace (dispatch W (parsePathOrGlob W basePath r) p),
   result (dispatch W (parsePathOrGlob W basePath r) p)).
Proof.
  intros Hr Hf Hm Hd. rewrite processPrompt_unfold, Hr, Hf, Hm. cbn [is_set negb].
  replace (isPathPattern (parsePathOrGlob W basePath r) && (0 <? d)%Z)
    with false.
  - rewrite !emit_bind. reflexivity.
  - destruct Hd as [->|Hd]; [done|].
    symmetry. apply andb_false_intro2. by apply Z.ltb_ge.
Qed.

Lemma processPrompt_glob (p : PartialPrompt) (basePath : string) (d : Z)
    (r : string) :
  raw p = Some r → function p = None → maybeFilePath W r = true →
  isPathPattern (parsePathOrGlob W basePath r) = true → (0 < d)%Z →
  let pattern := replace_backslashes (filePath (parsePathOrGlob W basePath r)) in
  let rest :=
    prompts ← expandMatches W basePath (d - 1) (globSync W pattern);
    if Nat.eqb (length prompts) 0 then
      fallback ← callString p; mret (prompts ++ fallback)
    else mret prompts in
  processPrompt W p basePath d =
  (EvClassify r :: EvDecompose basePath r :: EvGlob pattern :: trace rest,
   result rest).
Proof.
  intros Hr Hf Hm Hp Hd. rewrite processPrompt_unfold, Hr, Hf, Hm. cbn [is_set negb].
  rewrite Hp. replace (0 <? d)%Z with true by (symmetry; by apply Z.ltb_lt).
  cbn [andb]. rewrite !emit_bind. reflexivity.
Qed.

Lemma expand_results (basePath : string) (d : Z) (paths : list string)
    (rs : list (list Prompt)) (acc : list Prompt) :
  Forall2 (fun g r => result (processPrompt W (rawOnly g) basePath d) = Ok r)
          paths rs →
  result (for_of paths acc
            (fun prompts globbedFilePath =>
               processedPrompts ←
                 processPrompt W (rawOnly globbedFilePath) basePath d;
               mret (prompts ++ processedPrompts)))
  = Ok (acc ++ concat rs).
Proof.
  intros H. revert acc.
  induction H as [|g r paths rs Hg _ IH]; intros acc; simpl.
  - by rewrite app_nil_r.
  - rewrite !result_bind, Hg. simpl. rewrite IH. by rewrite app_assoc.
Qed.

Lemma processPrompt_glob_result (p : PartialPrompt) (basePath : string) (d : Z)
    (r : string) (rs : list (list Prompt)) :
  raw p = Some r → function p = None → maybeFilePath W r = true →
  isPathPattern (parsePathOrGlob W basePath r) = true → (0 < d)%Z →
  Forall2 (fun g res =>
             result (processPrompt W (rawOnly g) basePath (d - 1)) = Ok res)
    (globSync W (replace_backslashes (filePath (parsePathOrGlob W basePath r))))
    rs →
  result (processPrompt W p basePath d) =
  if Nat.eqb (length (concat rs)) 0 then processString p else Ok (concat rs).
Proof.
  intros Hr Hf Hm Hp Hd Hrs.
  rewrite (processPrompt_glob p basePath d r) by done.
  unfold result at 1. cbn [snd].
  rewrite result_bind. unfold expandMatches.
  rewrite (expand_results _ _ _ rs) by done. cbn [app].
  destruct (concat rs) as [|x xs]; cbn [length Nat.eqb]; [|done].
  unfold callString. rewrite result_bind, result_emit_bind.
  unfold lift, result. cbn [snd]. by destruct (processString p).
Qed.

End ResolverFacts.

Section HandlerFacts.

Variable W : World.

Lemma dispatch_unrecognized (info : ResolvedPathInfo) (p : PartialPrompt) :
  unrecognizedExtension W (extension info) →
  dispatch W info p = mret [].
Proof.
  unfold unrecognizedExtension, dispatch, ext_is, ext_is_javascript, ext_is_yaml.
  destruct (extension info) as [x|]; [|done].
  intros [Hx Hjs]. rewrite !not_elem_of_cons in Hx.
  destruct Hx as (H1 & H2 & H3 & H4 & H5 & H6 & H7 & _).
  apply String.eqb_neq in H1, H2, H3, H4, H5, H6, H7.
  rewrite H1, H2, H3, H4, H5, H6, H7, Hjs.
  rewrite !andb_false_r. reflexivity.
Qed.

Lemma fresh_handlers (d : Z) (g basePath : string) :
  Forall (handlerSees isFresh) (trace (processPrompt W (rawOnly g) basePath d)).
Proof.
  remember (Z.to_nat d) as n eqn:Hn. revert d g Hn.
  induction n as [|n IH]; intros d g Hn;
    rewrite processPrompt_unfold; cbn [raw rawOnly function is_set];
    rewrite emit_bind; (constructor; [done|]);
    (destruct (maybeFilePath W g); cbn [negb];
      [|unfold callString; rewrite emit_bind; by repeat constructor]);
    rewrite emit_bind; (constructor; [done|]); cbn zeta.
  - replace (0 <? d)%Z with false by (symmetry; apply Z.ltb_ge; lia).
    rewrite andb_false_r.
    destruct (dispatch_trace W (parsePathOrGlob W basePath g) (rawOnly g))
      as [->|(f & sel & ->)]; repeat constructor; by exists g.
  - replace (0 <? d)%Z with true by (symmetry; apply Z.ltb_lt; lia).
    rewrite andb_true_r.
    destruct (isPathPattern _).
    + rewrite emit_bind. constructor; [done|].
      rewrite trace_bind.
      match goal with |- context [for_of ?xs ?a ?b] =>
        assert (Forall (handlerSees isFresh) (trace (for_of xs a b))) as Hloop
      end.
      { apply for_of_trace_Forall. intros a x _.
        assert (Forall (handlerSees isFresh)
                  (trace (processPrompt W (rawOnly x) basePath (d - 1)))) as Hx
          by (apply IH; lia).
        rewrite trace_bind. destruct (result _); [|done].
        apply Forall_app; split; [done|constructor]. }
      destruct (result _) as [prompts|]; [|done].
      apply Forall_app; split; [done|].
      destruct (length prompts =? 0)%nat; [|constructor].
      unfold callString. rewrite trace_bind, emit_bind.
      destruct (result _); [apply Forall_app; split|]; by repeat constructor.
    + destruct (dispatch_trace W (parsePathOrGlob W basePath g) (rawOnly g))
        as [->|(f & sel & ->)]; repeat constructor; by exists g.
Qed.

End HandlerFacts.

(** ** Claims about [processPrompt] *)

(** C8.  A partial whose [function] field is populated (and whose [raw] is a
    string, as the invariant of line 93 requires) resolves to the one-element
    list holding that partial, field for field, and the trace is empty: the
    classifier, the glob listing and the handlers are not called. *)
Theorem function_partial_is_terminal (W : World) (p : PartialPrompt)
    (basePath : string) (d : Z) (r : string) (f : PromptFunction) :
  raw p = Some r → function p = Some f →
  processPrompt W p basePath d = ([], Ok [asPrompt p r])
  ∧ toPartial (asPrompt p r) = p.
Proof.
  intros Hr Hf. split; [by eapply processPrompt_function|].
  destruct p as [pr pl pf]. simpl in *. by subst.
Qed.

Lemma function_partial_is_terminal_witness :
  processPrompt Sample.world
    {| raw := Some "prompts/*.txt"; label := Some "greet";
       function := Some "greetFn" |} EmptyString 1
  = ([], Ok [ {| p_raw := "prompts/*.txt"; p_label := Some "greet";
                 p_function := Some "greetFn" |} ]).
Proof.
  exact (proj1 (function_partial_is_terminal Sample.world
           {| raw := Some "prompts/*.txt"; label := Some "greet";
              function := Some "greetFn" |} EmptyString 1
           "prompts/*.txt" "greetFn" eq_refl eq_refl)).
Defined.

(** C2.  A partial whose raw is a glob pattern that the listing expands to no
    path, resolved with a positive budget, yields exactly one prompt: the
    literal-string processing of the original raw input.  Nothing is thrown. *)
Theorem glob_without_match_is_literal (W : World) (p : PartialPrompt)
    (basePath : string) (d : Z) (r : string) :
  raw p = Some r → function p = None → maybeFilePath W r = true →
  isPathPattern (parsePathOrGlob W basePath r) = true → (0 < d)%Z →
  globSync W (replace_backslashes (filePath (parsePathOrGlob W basePath r))) = [] →
  processPrompt W p basePath d =
  ([ EvClassify r; EvDecompose basePath r;
     EvGlob (replace_backslashes (filePath (parsePathOrGlob W basePath r)));
     EvString p ],
   Ok [ {| p_raw := r; p_label := Some (default r (label p));
           p_function := None |} ]).
Proof.
  intros Hr Hf Hm Hp Hd Hg.
  rewrite (processPrompt_glob W p basePath d r) by done.
  rewrite Hg. unfold expandMatches, callString, processString.
  rewrite Hr. reflexivity.
Qed.

Lemma glob_without_match_is_literal_witness :
  processPrompt Sample.world
    {| raw := Some "drafts/*.txt"; label := Some "draft"; function := None |}
    EmptyString 1
  = ([ EvClassify "drafts/*.txt"; EvDecompose EmptyString "drafts/*.txt";
       EvGlob "drafts/*.txt";
       EvString {| raw := Some "drafts/*.txt"; label := Some "draft";
                   function := None |} ],
     Ok [ {| p_raw := "drafts/*.txt"; p_label := Some "draft";
             p_function := None |} ]).
Proof.
  apply (glob_without_match_is_literal Sample.world
           {| raw := Some "drafts/*.txt"; label := Some "draft";
              function := None |} EmptyString 1 "drafts/*.txt");
    [reflexivity | reflexivity | reflexivity | reflexivity | exact Z.lt_0_1 | reflexivity].
Defined.



(** C7, as amended.  A file reference whose extension is absent or is no key
    of the dispatch table resolves to the empty list, without an error,
    provided it reaches the dispatch chain: it is a concrete path or the
    budget is exhausted. *)
Theorem unrecognized_extension_yields_nothing (W : World) (p : PartialPrompt)
    (basePath : string) (d : Z) (r : string) :
  raw p = Some r → function p = None → maybeFilePath W r = true →
  unrecognizedExtension W (extension (parsePathOrGlob W basePath r)) →
  isPathPattern (parsePathOrGlob W basePath r) = false ∨ (d ≤ 0)%Z →
  processPrompt W p basePath d =
  ([EvClassify r; EvDecompose basePath r], Ok []).
Proof.
  intros Hr Hf Hm Hext Hd.
  rewrite (processPrompt_dispatch W p basePath d r) by done.
  by rewrite dispatch_unrecognized.
Qed.

Lemma sample_xyz_unrecognized :
  unrecognizedExtension Sample.world (Some ".xyz").
Proof.
  split; [|reflexivity].
  rewrite !not_elem_of_cons. repeat split; try discriminate.
  apply not_elem_of_nil.
Qed.

Lemma unrecognized_extension_yields_nothing_witness :
  processPrompt Sample.world (rawOnly "prompts/notes.xyz") EmptyString 1 =
  ([EvClassify "prompts/notes.xyz"; EvDecompose EmptyString "prompts/notes.xyz"],
   Ok []).
Proof.
  apply (unrecognized_extension_yields_nothing Sample.world
           (rawOnly "prompts/notes.xyz") EmptyString 1 "prompts/notes.xyz");
    [reflexivity | reflexivity | reflexivity
    | exact sample_xyz_unrecognized | left; reflexivity].
Defined.

(** C7, as stated, fails on a glob pattern resolved with a positive budget:
    the pattern below is a file reference with an extension that no handler
    takes, it matches nothing, and the resolver returns one literal prompt
    instead of the empty list. *)
Lemma unrecognized_extension_glob_counterexample :
  raw (rawOnly "drafts/*.xyz") = Some "drafts/*.xyz"
  ∧ function (rawOnly "drafts/*.xyz") = None
  ∧ maybeFilePath Sample.world "drafts/*.xyz" = true
  ∧ unrecognizedExtension Sample.world
      (extension (parsePathOrGlob Sample.world EmptyString "drafts/*.xyz"))
  ∧ result (processPrompt Sample.world (rawOnly "drafts/*.xyz") EmptyString 1)
    = Ok [ {| p_raw := "drafts/*.xyz"; p_label := Some "drafts/*.xyz";
              p_function := None |} ]
  ∧ result (processPrompt Sample.world (rawOnly "drafts/*.xyz") EmptyString 1)
    ≠ Ok [].
Proof.
  repeat split; try reflexivity; try discriminate.
  - rewrite !not_elem_of_cons. repeat split; try discriminate.
    apply not_elem_of_nil.
Qed.

(** C1, at the failing input.  The pattern matches one file, that file
    resolves to no prompt (its extension has no handler), and the resolver
    returns the literal-string prompt of the pattern instead of the (empty)
    concatenation: the test of line 135 looks at the accumulated prompts and
    not at the listing. *)
Theorem glob_matches_without_prompts_fall_back :
  globSync Sample.world "prompts/*.xyz" = ["prompts/notes.xyz"]
  ∧ result (processPrompt Sample.world (rawOnly "prompts/notes.xyz")
              EmptyString (1 - 1)) = Ok []
  ∧ processPrompt Sample.world (rawOnly "prompts/*.xyz") EmptyString 1 =
    ([ EvClassify "prompts/*.xyz"; EvDecompose EmptyString "prompts/*.xyz";
       EvGlob "prompts/*.xyz";
       EvClassify "prompts/notes.xyz";
       EvDecompose EmptyString "prompts/notes.xyz";
       EvString (rawOnly "prompts/*.xyz") ],
     Ok [ {| p_raw := "prompts/*.xyz"; p_label := Some "prompts/*.xyz";
             p_function := None |} ]).
Proof. repeat split. Qed.

(** C9.  When a glob pattern is expanded, the prompts of the matched files
    are those obtained from the fresh partials [{ raw: path }], whatever
    label or other field the original partial carries, and every handler
    called during the expansion receives such a fresh partial. *)
Theorem glob_expansion_uses_fresh_partials (W : World) (p : PartialPrompt)
    (basePath : string) (d : Z) (r : string) :
  raw p = Some r → function p = None → maybeFilePath W r = true →
  isPathPattern (parsePathOrGlob W basePath r) = true → (0 < d)%Z →
  (∀ rs : list (list Prompt),
     Forall2 (fun g res =>
                result (processPrompt W (rawOnly g) basePath (d - 1)) = Ok res)
       (globSync W
          (replace_backslashes (filePath (parsePathOrGlob W basePath r))))
       rs →
     concat rs ≠ [] →
     result (processPrompt W p basePath d) = Ok (concat rs))
  ∧ Forall (handlerSees isFresh) (trace (processPrompt W p basePath d)).
Proof.
  intros Hr Hf Hm Hp Hd. split.
  - intros rs Hrs Hne.
    rewrite (processPrompt_glob_result W p basePath d r rs) by done.
    destruct (concat rs); [done|reflexivity].
  - rewrite (processPrompt_glob W p basePath d r) by done.
    unfold trace at 1. cbn [fst].
    do 3 (constructor; [done|]).
    rewrite trace_bind.
    assert (Forall (handlerSees isFresh)
              (trace (expandMatches W basePath (d - 1)
                 (globSync W (replace_backslashes
                    (filePath (parsePathOrGlob W basePath r))))))) as Hloop.
    { apply for_of_trace_Forall. intros a x _.
      pose proof (fresh_handlers W (d - 1) x basePath) as Hx.
      rewrite trace_bind. destruct (result _); [|done].
      apply Forall_app; split; [done|constructor]. }
    destruct (result _) as [prompts|]; [|done].
    apply Forall_app; split; [done|].
    destruct (length prompts =? 0)%nat; [|constructor].
    unfold callString. rewrite trace_bind, emit_bind.
    destruct (result _); [apply Forall_app; split|]; by repeat constructor.
Qed.

Lemma glob_expansion_uses_fresh_partials_witness :
  result (processPrompt Sample.world
            {| raw := Some "prompts/*.txt"; label := Some "greeting";
               function := None |} EmptyString 1)
  = Ok [ {| p_raw := "Hello {{name}}";
            p_label := Some "prompts/a.txt: Hello {{name}}";
            p_function := None |};
         {| p_raw := "Goodbye";
            p_label := Some "prompts/b.txt: Goodbye";
            p_function := None |} ].
Proof.
  apply (proj1 (glob_expansion_uses_fresh_partials Sample.world
           {| raw := Some "prompts/*.txt"; label := Some "greeting";
              function := None |} EmptyString 1 "prompts/*.txt"
           eq_refl eq_refl eq_refl eq_refl Z.lt_0_1)
         [ [ {| p_raw := "Hello {{name}}";
                p_label := Some "prompts/a.txt: Hello {{name}}";
                p_function := None |} ];
           [ {| p_raw := "Goodbye";
                p_label := Some "prompts/b.txt: Goodbye";
                p_function := None |} ] ]).
  - repeat constructor.
  - discriminate.
Defined.

(** ** Claims about [readPrompts] *)

Section ReadFacts.

Variable W : World.
Variable basePath : string.

Lemma collect_fst (batch : list Prompt) (acc : list Prompt * list string) :
  fst (fold_left (collectPrompt W) batch acc) = fst acc ++ batch.
Proof.
  revert acc. induction batch as [|x batch IH]; intros [prompts without]; simpl.
  - by rewrite app_nil_r.
  - rewrite IH. simpl. by rewrite <- app_assoc.
Qed.

Lemma readOne_result (acc : list Prompt * list string) (p : PartialPrompt) :
  result (readOne W basePath acc p) =
  match result (processPrompt W p basePath 1) with
  | Ok [] => Throw (JsError (no_prompts_message (raw p)))
  | Ok batch => Ok (fold_left (collectPrompt W) batch acc)
  | Throw e => Throw e
  end.
Proof.
  unfold readOne. rewrite result_bind.
  destruct (result (processPrompt W p basePath 1)) as [[|x batch]|e]; done.
Qed.






Lemma readPrompts_result (input : PromptInput) (ps : list PartialPrompt) :
  normalizeInput W input = Ok ps →
  result (readPrompts W input basePath) =
  match result (for_of ps ([], []) (readOne W basePath)) with
  | Ok acc => Ok (fst acc)
  | Throw e => Throw e
  end.
Proof.
  intros Hn. unfold readPrompts. rewrite Hn.
  unfold lift. rewrite bind_ok. unfold result at 1. cbn [snd].
  rewrite result_bind.
  destruct (result (for_of ps _ _)) as [[prompts without]|e]; [|done].
  rewrite result_bind.
  by destruct (0 <? length without)%nat.
Qed.

End ReadFacts.










(** ** Claims about [readProviderPromptMap] *)

Lemma res_for_of_app {A X} (xs ys : list X) (acc : A) (body : A → X → Res A) :
  res_for_of (xs ++ ys) acc body =
  res_for_of xs acc body ≫= fun acc' => res_for_of ys acc' body.
Proof.
  revert acc. induction xs as [|x xs IH]; intros acc; simpl; [done|].
  destruct (body acc x) as [acc'|e]; simpl; [apply IH|done].
Qed.

Lemma field_head (k : string) (v : JsVal) (rest : list (string * JsVal)) :
  field k ((k, v) :: rest) = v.
Proof. simpl. by rewrite String.eqb_refl. Qed.

Lemma mapProvider_no_invariant (allPrompts : JsVal) (ret : gmap string JsVal)
    (provider : ProviderEntry) (msg : string) :
  mapProvider allPrompts ret provider ≠ Throw (InvariantFailed msg).
Proof.
  destruct provider as [id|src| |fields]; try discriminate.
  unfold mapProvider.
  destruct (truthy (field "id" fields)) eqn:Hid.
  - simpl. by destruct (truthy (field "label" fields)).
  - destruct (field (js_toString (firstKey fields)) fields); simpl; discriminate.
Qed.

Lemma res_for_of_no_invariant (allPrompts : JsVal) (entries : list ProviderEntry)
    (ret : gmap string JsVal) (msg : string) :
  res_for_of entries ret (mapProvider allPrompts) ≠ Throw (InvariantFailed msg).
Proof.
  revert ret. induction entries as [|x entries IH]; intros ret; simpl; [done|].
  destruct (mapProvider allPrompts ret x) as [ret'|e] eqn:Hx; simpl.
  - apply IH.
  - rewrite <- Hx. apply mapProvider_no_invariant.
Qed.

(** C5, at the failing input.  An object entry that overrides [prompts] and
    declares no [id] is not rejected: it is read as a keyed mapping whose
    first key is [prompts], and the call returns a map.  The invariant of
    lines 60-63 sits under the test [provider.id] and can never fail. *)
Theorem override_without_id_is_not_rejected :
  readProviderPromptMap
    {| providers := ProvidersList [PObject [("prompts", VArr [VStr "p1"])]] |}
    [ {| p_raw := "Hello"; p_label := Some "p1"; p_function := None |};
      {| p_raw := "Bye"; p_label := Some "p2"; p_function := None |} ]
  = Ok {[ "prompts" := VArr [VStr "p1"; VStr "p2"] ]}
  ∧ ∀ config parsedPrompts msg,
      readProviderPromptMap config parsedPrompts ≠ Throw (InvariantFailed msg).
Proof.
  split; [by vm_compute|].
  intros [[| id | src | entries]] parsedPrompts msg;
    unfold readProviderPromptMap; cbn [providers]; try discriminate.
  - by destruct id.
  - apply res_for_of_no_invariant.
Qed.

(** C10.  An object entry without a truthy [id] is read as a keyed mapping:
    the inner object under its first key decides the result, the identifier
    is the inner object's own [id] when it is truthy and the first key
    otherwise, and the remaining keys have no influence. *)
Theorem keyed_entry_consults_first_key_only (allPrompts : JsVal)
    (ret : gmap string JsVal) (k : string) (inner : JsVal)
    (rest : list (string * JsVal)) :
  truthy (field "id" ((k, inner) :: rest)) = false →
  mapProvider allPrompts ret (PObject ((k, inner) :: rest))
  = keyedEntryResult allPrompts ret k inner
  ∧ (∀ fields,
       inner = VObj fields →
       mapProvider allPrompts ret (PObject ((k, inner) :: rest))
       = Ok (<[ (if truthy (field "id" fields)
                 then js_toString (field "id" fields) else k)
                := js_or (field "prompts" fields) allPrompts ]> ret))
  ∧ (∀ rest',
       truthy (field "id" ((k, inner) :: rest')) = false →
       mapProvider allPrompts ret (PObject ((k, inner) :: rest'))
       = mapProvider allPrompts ret (PObject ((k, inner) :: rest))).
Proof.
  assert (∀ tail,
    truthy (field "id" ((k, inner) :: tail)) = false →
    mapProvider allPrompts ret (PObject ((k, inner) :: tail))
    = keyedEntryResult allPrompts ret k inner) as Hstep.
  { intros tail Hid. unfold mapProvider, keyedEntryResult. rewrite Hid.
    cbn [firstKey js_toString]. rewrite field_head.
    destruct (getProp inner "id") as [innerId|e]; [|done].
    unfold js_or, mbind, Res_bind, mret, Res_ret.
    by destruct (truthy innerId). }
  intros Hid. split; [by apply Hstep|]. split.
  - intros fields ->. by rewrite Hstep.
  - intros rest' Hid'. by rewrite !Hstep.
Qed.

Lemma keyed_entry_consults_first_key_only_witness :
  mapProvider (VArr [VStr "p1"; VStr "p2"]) ∅
    (PObject [ ("openai:gpt-4", VObj [("prompts", VArr [VStr "p2"])]);
               ("ignored", VObj [("id", VStr "other")]) ])
  = Ok {[ "openai:gpt-4" := VArr [VStr "p2"] ]}.
Proof.
  exact (proj1 (proj2 (keyed_entry_consults_first_key_only
           (VArr [VStr "p1"; VStr "p2"]) ∅ "openai:gpt-4"
           (VObj [("prompts", VArr [VStr "p2"])])
           [("ignored", VObj [("id", VStr "other")])] eq_refl))
         [("prompts", VArr [VStr "p2"])] eq_refl).
Defined.

(** C6.  Without providers (undefined, or the empty string) the map is empty;
    a provider string maps to all labels; a provider function maps all labels
    under [Custom function]; a list entry with an explicit [id] and a
    [prompts] override maps the id to exactly the override, whatever the
    labels and whatever entries come before it. *)
Theorem provider_shapes_are_mapped (parsedPrompts : list Prompt) :
  let allPrompts := VArr (map labelValue parsedPrompts) in
  readProviderPromptMap {| providers := ProvidersUndefined |} parsedPrompts = Ok ∅
  ∧ readProviderPromptMap {| providers := ProvidersString EmptyString |}
      parsedPrompts = Ok ∅
  ∧ (∀ id, id ≠ EmptyString →
       readProviderPromptMap {| providers := ProvidersString id |} parsedPrompts
       = Ok {[ id := allPrompts ]})
  ∧ (∀ src,
       readProviderPromptMap {| providers := ProvidersFunction src |} parsedPrompts
       = Ok {[ "Custom function" := allPrompts ]})
  ∧ (∀ id override, id ≠ EmptyString →
       readProviderPromptMap
         {| providers :=
              ProvidersList
                [PObject [("id", VStr id); ("prompts", VArr override)]] |}
         parsedPrompts
       = Ok {[ id := VArr override ]})
  ∧ (∀ earlier fields id override m,
       field "id" fields = VStr id → id ≠ EmptyString →
       field "prompts" fields = VArr override →
       res_for_of earlier ∅ (mapProvider allPrompts) = Ok m →
       ∃ m',
         readProviderPromptMap
           {| providers := ProvidersList (earlier ++ [PObject fields]) |}
           parsedPrompts = Ok m'
         ∧ m' !! id = Some (VArr override)).
Proof.
  intros allPrompts.
  assert (∀ id, id ≠ EmptyString → truthy (VStr id) = true) as Htruthy.
  { intros id Hid. simpl. apply negb_true_iff. by apply String.eqb_neq. }
  repeat split.
  - intros id Hid. by destruct id.
  - intros id override Hid.
    unfold readProviderPromptMap. cbn [providers res_for_of].
    unfold mapProvider. rewrite !field_head.
    cbn [field]. cbn [String.eqb Ascii.eqb Bool.eqb].
    rewrite (Htruthy id Hid).
    unfold invariant, js_or, mbind, Res_bind, mret, Res_ret. by cbn.
  - intros earlier fields id override m Hfid Hid Hpr Hpre.
    unfold readProviderPromptMap. cbn [providers].
    rewrite res_for_of_app. fold allPrompts. rewrite Hpre.
    unfold mbind at 1, Res_bind at 1. cbn [res_for_of].
    unfold mapProvider. rewrite Hfid, Hpr, (Htruthy id Hid).
    unfold invariant, js_or, mbind, Res_bind, mret, Res_ret.
    cbn [truthy js_toString].
    destruct (truthy (field "label" fields)) eqn:Hl.
    + eexists; split; [reflexivity|].
      destruct (decide (js_toString (field "label" fields) = id)) as [->|Hne].
      * apply lookup_insert_eq.
      * rewrite lookup_insert_ne by done. apply lookup_insert_eq.
    + eexists; split; [reflexivity|]. apply lookup_insert_eq.
Qed.

Lemma provider_shapes_are_mapped_witness :
  readProviderPromptMap {| providers := ProvidersString "providerA" |}
    [ {| p_raw := "Hello"; p_label := Some "p1"; p_function := None |};
      {| p_raw := "Bye"; p_label := Some "p2"; p_function := None |} ]
  = Ok {[ "providerA" := VArr [VStr "p1"; VStr "p2"] ]}
  ∧ readProviderPromptMap
      {| providers :=
           ProvidersList
             [PObject [("id", VStr "x"); ("prompts", VArr [VStr "p1"])]] |}
      [ {| p_raw := "Hello"; p_label := Some "p1"; p_function := None |};
        {| p_raw := "Bye"; p_label := Some "p2"; p_function := None |} ]
    = Ok {[ "x" := VArr [VStr "p1"] ]}.
Proof.
  pose proof (provider_shapes_are_mapped
    [ {| p_raw := "Hello"; p_label := Some "p1"; p_function := None |};
      {| p_raw := "Bye"; p_label := Some "p2"; p_function := None |} ])
    as (_ & _ & Hstring & _ & Hentry & _).
  split.
  - apply (Hstring "providerA"). discriminate.
  - apply (Hentry "x" [VStr "p1"]). discriminate.
Defined.

(** ** Further properties of [processPrompt] *)

(** X1.  A partial without [raw] makes [processPrompt] throw the invariant
    of lines 93-96, whatever its other fields are (a populated [function]
    included) and whatever the budget is; no collaborator is called. *)
Theorem missing_raw_is_fatal (W : World) (p : PartialPrompt)
    (basePath : string) (d : Z) :
  raw p = None →
  processPrompt W p basePath d =
  ([], Throw (InvariantFailed "prompt.raw must be a string, but got undefined")).
Proof. intros Hr. by rewrite processPrompt_unfold, Hr. Qed.

Lemma missing_raw_is_fatal_witness :
  processPrompt Sample.world
    {| raw := None; label := Some "greet"; function := Some "greetFn" |}
    EmptyString 1
  = ([], Throw (InvariantFailed "prompt.raw must be a string, but got undefined")).
Proof.
  exact (missing_raw_is_fatal Sample.world
           {| raw := None; label := Some "greet"; function := Some "greetFn" |}
           EmptyString 1 eq_refl).
Defined.

(** X2.  A partial whose raw text the classifier does not take for a file
    reference resolves to exactly one prompt carrying that text, labelled by
    the partial's label or else by the text; only the classifier and the
    literal-string processing are called, the path is never decomposed,
    listed or read, and the budget plays no part. *)
Theorem literal_text_is_one_prompt (W : World) (p : PartialPrompt)
    (basePath : string) (d : Z) (r : string) :
  raw p = Some r → function p = None → maybeFilePath W r = false →
  processPrompt W p basePath d =
  ([EvClassify r; EvString p],
   Ok [ {| p_raw := r; p_label := Some (default r (label p));
           p_function := None |} ]).
Proof.
  intros Hr Hf Hm. rewrite (processPrompt_literal W p basePath d r) by done.
  unfold processString. by rewrite Hr.
Qed.

Lemma literal_text_is_one_prompt_witness :
  processPrompt Sample.world
    {| raw := Some "Hello {{name}}"; label := Some "greeting"; function := None |}
    EmptyString 1
  = ([ EvClassify "Hello {{name}}";
       EvString {| raw := Some "Hello {{name}}"; label := Some "greeting";
                   function := None |} ],
     Ok [ {| p_raw := "Hello {{name}}"; p_label := Some "greeting";
             p_function := None |} ]).
Proof.
  exact (literal_text_is_one_prompt Sample.world
           {| raw := Some "Hello {{name}}"; label := Some "greeting";
              function := None |} EmptyString 1 "Hello {{name}}"
           eq_refl eq_refl eq_refl).
Defined.

Lemma dispatch_recognized (W : World) (info : ResolvedPathInfo)
    (p : PartialPrompt) :
  recognizedExtension W (extension info) →
  ∃ f,
    dispatch W info p =
    ([EvHandler f (filePath info) p (selectorFor f info)],
     handlerOf W f (filePath info) p (selectorFor f info)).
Proof.
  intros (x & Hx & Hrec). unfold dispatch, ext_is, ext_is_javascript, ext_is_yaml.
  rewrite Hx.
  assert (∀ f sel (h : Res (list Prompt)),
            callHandler f (filePath info) p sel h
            = ([EvHandler f (filePath info) p sel], h)) as Hcall.
  { intros. unfold callHandler. by rewrite emit_bind. }
  destruct (String.eqb_spec x ".json") as [->|H1];
    [exists FJson; by rewrite Hcall|].
  destruct (String.eqb_spec x ".jsonl") as [->|H2];
    [exists FJsonl; by rewrite Hcall|].
  destruct (negb (x =? EmptyString)%string && isJavascriptFile W x) eqn:Hjs;
    [exists FJavascript; by rewrite Hcall|].
  destruct (String.eqb_spec x ".md") as [->|H3];
    [exists FMarkdown; by rewrite Hcall|].
  destruct (String.eqb_spec x ".py") as [->|H4];
    [exists FPython; by rewrite Hcall|].
  destruct (String.eqb_spec x ".txt") as [->|H5];
    [exists FTxt; by rewrite Hcall|].
  destruct (String.eqb_spec x ".yml") as [->|H6];
    [exists FYaml; by rewrite Hcall|].
  destruct (String.eqb_spec x ".yaml") as [->|H7];
    [exists FYaml; by rewrite Hcall|].
  exfalso. destruct Hrec as [Hin|[Hne Hj]].
  - rewrite !elem_of_cons, elem_of_nil in Hin. intuition congruence.
  - apply String.eqb_neq in Hne. by rewrite Hne, Hj in Hjs.
Qed.

(** X3.  A file reference that reaches the dispatch chain (a concrete
    path, or any path once the budget is exhausted) with an extension the
    chain accepts calls exactly one handler, on the decomposed path and the
    original partial, with the function selector for the script handlers
    only; the outcome of [processPrompt] is that handler's outcome, its
    exception included. *)
Theorem recognized_extension_calls_one_handler (W : World) (p : PartialPrompt)
    (basePath : string) (d : Z) (r : string) :
  raw p = Some r → function p = None → maybeFilePath W r = true →
  recognizedExtension W (extension (parsePathOrGlob W basePath r)) →
  isPathPattern (parsePathOrGlob W basePath r) = false ∨ (d ≤ 0)%Z →
  ∃ f,
    processPrompt W p basePath d =
    ([ EvClassify r; EvDecompose basePath r;
       EvHandler f (filePath (parsePathOrGlob W basePath r)) p
         (selectorFor f (parsePathOrGlob W basePath r)) ],
     handlerOf W f (filePath (parsePathOrGlob W basePath r)) p
       (selectorFor f (parsePathOrGlob W basePath r))).
Proof.
  intros Hr Hf Hm Hext Hd.
  destruct (dispatch_recognized W (parsePathOrGlob W basePath r) p Hext)
    as (f & Hdis).
  exists f.
  rewrite (processPrompt_dispatch W p basePath d r) by done.
  by rewrite Hdis.
Qed.

Lemma recognized_extension_calls_one_handler_witness :
  ∃ f,
    processPrompt Sample.world
      {| raw := Some "prompts/a.txt"; label := Some "greeting";
         function := None |} EmptyString 1
    = ([ EvClassify "prompts/a.txt"; EvDecompose EmptyString "prompts/a.txt";
         EvHandler f "prompts/a.txt"
           {| raw := Some "prompts/a.txt"; label := Some "greeting";
              function := None |}
           (selectorFor f (parsePathOrGlob Sample.world EmptyString "prompts/a.txt")) ],
       handlerOf Sample.world f "prompts/a.txt"
         {| raw := Some "prompts/a.txt"; label := Some "greeting";
            function := None |}
         (selectorFor f (parsePathOrGlob Sample.world EmptyString "prompts/a.txt"))).
Proof.
  apply (recognized_extension_calls_one_handler Sample.world
           {| raw := Some "prompts/a.txt"; label := Some "greeting";
              function := None |} EmptyString 1 "prompts/a.txt"
           eq_refl eq_refl eq_refl).
  - exists ".txt". split; [reflexivity|]. left.
    rewrite !elem_of_cons. auto 10.
  - by left.
Defined.

Lemma expand_failure (W : World) (basePath : string) (d : Z)
    (pre post : list string) (g : string) (rs : list (list Prompt))
    (e : Exn) (acc : list Prompt) :
  Forall2 (fun g r => result (processPrompt W (rawOnly g) basePath d) = Ok r)
          pre rs →
  result (processPrompt W (rawOnly g) basePath d) = Throw e →
  for_of (pre ++ g :: post) acc
    (fun prompts globbedFilePath =>
       processedPrompts ←
         processPrompt W (rawOnly globbedFilePath) basePath d;
       mret (prompts ++ processedPrompts))
  = (flat_map (fun g => trace (processPrompt W (rawOnly g) basePath d)) pre
       ++ trace (processPrompt W (rawOnly g) basePath d),
     Throw e).
Proof.
  intros H Hg. revert acc.
  induction H as [|g' r pre rs Hg' _ IH]; intros acc; cbn [app for_of flat_map].
  - destruct (processPrompt W (rawOnly g) basePath d) as [t res].
    unfold result in Hg. cbn [snd] in Hg. subst res.
    by rewrite !bind_throw.
  - destruct (processPrompt W (rawOnly g') basePath d) as [t res] eqn:Heq.
    unfold result in Hg'. cbn [snd] in Hg'. subst res.
    rewrite bind_ok. cbn [result trace fst snd mret M_ret].
    rewrite bind_ok, IH. cbn [result trace fst snd].
    by rewrite !app_nil_r, app_assoc.
Qed.

(** X4.  When a matched path of a glob expansion throws, the whole
    expansion throws that exception: the prompts of the earlier matches are
    discarded, the later matches are never resolved and there is no fallback
    to literal text. *)
Theorem failing_match_aborts_expansion (W : World) (p : PartialPrompt)
    (basePath : string) (d : Z) (r : string) (pre post : list string)
    (g : string) (rs : list (list Prompt)) (e : Exn) :
  raw p = Some r → function p = None → maybeFilePath W r = true →
  isPathPattern (parsePathOrGlob W basePath r) = true → (0 < d)%Z →
  globSync W (replace_backslashes (filePath (parsePathOrGlob W basePath r)))
    = pre ++ g :: post →
  Forall2 (fun g' res =>
             result (processPrompt W (rawOnly g') basePath (d - 1)) = Ok res)
    pre rs →
  result (processPrompt W (rawOnly g) basePath (d - 1)) = Throw e →
  processPrompt W p basePath d =
  (EvClassify r :: EvDecompose basePath r
     :: EvGlob (replace_backslashes (filePath (parsePathOrGlob W basePath r)))
     :: flat_map (fun g' => trace (processPrompt W (rawOnly g') basePath (d - 1)))
          pre
     ++ trace (processPrompt W (rawOnly g) basePath (d - 1)),
   Throw e).
Proof.
  intros Hr Hf Hm Hp Hd Hglob Hpre Hg.
  rewrite (processPrompt_glob W p basePath d r) by done.
  rewrite Hglob. unfold expandMatches.
  rewrite (expand_failure W basePath (d - 1) pre post g rs e) by done.
  by rewrite bind_throw.
Qed.

Lemma failing_match_aborts_expansion_witness :
  processPrompt SampleStale.world (rawOnly "prompts/*.txt") EmptyString 1 =
  ([ EvClassify "prompts/*.txt"; EvDecompose EmptyString "prompts/*.txt";
     EvGlob "prompts/*.txt";
     EvClassify "prompts/a.txt"; EvDecompose EmptyString "prompts/a.txt";
     EvHandler FTxt "prompts/a.txt" (rawOnly "prompts/a.txt") None;
     EvClassify "prompts/gone.txt"; EvDecompose EmptyString "prompts/gone.txt";
     EvHandler FTxt "prompts/gone.txt" (rawOnly "prompts/gone.txt") None ],
   Throw (JsError "ENOENT: no such file or directory, open 'prompts/gone.txt'")).
Proof.
  apply (failing_match_aborts_expansion SampleStale.world
           (rawOnly "prompts/*.txt") EmptyString 1 "prompts/*.txt"
           ["prompts/a.txt"] ["prompts/b.txt"] "prompts/gone.txt"
           [ [ {| p_raw := "Hello {{name}}";
                  p_label := Some "prompts/a.txt: Hello {{name}}";
                  p_function := None |} ] ]);
    try reflexivity.
  by repeat constructor.
Defined.

(** X5.  A glob pattern resolved with a positive budget never resolves
    to the empty list: either it throws or it returns at least one prompt.
    (So the fatal error of [readPrompts] cannot come from a pattern.) *)
Theorem expansion_never_returns_nothing (W : World) (p : PartialPrompt)
    (basePath : string) (d : Z) (r : string) :
  raw p = Some r → function p = None → maybeFilePath W r = true →
  isPathPattern (parsePathOrGlob W basePath r) = true → (0 < d)%Z →
  result (processPrompt W p basePath d) ≠ Ok [].
Proof.
  intros Hr Hf Hm Hp Hd.
  rewrite (processPrompt_glob W p basePath d r) by done.
  unfold result at 1. cbn [snd]. rewrite result_bind.
  destruct (result (expandMatches _ _ _ _)) as [[|x prompts]|e];
    cbn [length Nat.eqb]; [|discriminate..].
  unfold callString, processString. rewrite Hr.
  rewrite result_bind, result_emit_bind. discriminate.
Qed.

Lemma expansion_never_returns_nothing_witness :
  result (processPrompt Sample.world (rawOnly "prompts/*.xyz") EmptyString 1)
  ≠ Ok [].
Proof.
  exact (expansion_never_returns_nothing Sample.world
           (rawOnly "prompts/*.xyz") EmptyString 1 "prompts/*.xyz"
           eq_refl eq_refl eq_refl eq_refl Z.lt_0_1).
Defined.

Lemma processPrompt_trace_Forall (W : World) (P : Event → Prop)
    (basePath : string) :
  (∀ r, P (EvClassify r)) →
  (∀ r, P (EvDecompose basePath r)) →
  (∀ s, P (EvGlob (replace_backslashes s))) →
  (∀ q, P (EvString q)) →
  (∀ f path q sel, P (EvHandler f path q sel)) →
  ∀ d p, Forall P (trace (processPrompt W p basePath d)).
Proof.
  intros Hc Hd Hg Hs Hh d.
  remember (Z.to_nat d) as n eqn:Hn. revert d Hn.
  assert (∀ p, Forall P (trace (callString p))) as Hstring.
  { intros p. unfold callString. rewrite emit_bind. by repeat constructor. }
  assert (∀ info p, Forall P (trace (dispatch W info p))) as Hdispatch.
  { intros info p.
    destruct (dispatch_trace W info p) as [->|(f & sel & ->)];
      by repeat constructor. }
  induction n as [|n IH]; intros d Hn p;
    rewrite processPrompt_unfold;
    (destruct (raw p) as [r|]; [|constructor]);
    (destruct (is_set (function p)); [constructor|]);
    rewrite emit_bind; (constructor; [done|]);
    (destruct (maybeFilePath W r); cbn [negb]; [|done]);
    rewrite emit_bind; (constructor; [done|]); cbn zeta.
  - replace (0 <? d)%Z with false by (symmetry; apply Z.ltb_ge; lia).
    by rewrite andb_false_r.
  - replace (0 <? d)%Z with true by (symmetry; apply Z.ltb_lt; lia).
    rewrite andb_true_r.
    destruct (isPathPattern _); [|done].
    rewrite emit_bind. constructor; [done|].
    rewrite trace_bind.
    match goal with |- context [for_of ?xs ?a ?b] =>
      assert (Forall P (trace (for_of xs a b))) as Hloop
    end.
    { apply for_of_trace_Forall. intros a x _.
      assert (Forall P (trace (processPrompt W (rawOnly x) basePath (d - 1))))
        as Hx by (apply IH; lia).
      rewrite trace_bind. destruct (result _); [|done].
      apply Forall_app; split; [done|constructor]. }
    destruct (result _) as [prompts|]; [|done].
    apply Forall_app; split; [done|].
    destruct (length prompts =? 0)%nat; [|constructor].
    rewrite trace_bind.
    destruct (result _); [apply Forall_app; split|]; by repeat constructor.
Qed.

Lemma replace_backslashes_clean (s : string) :
  has_backslash (replace_backslashes s) = false.
Proof.
  induction s as [|c s IH]; [done|]. cbn [replace_backslashes has_backslash].
  rewrite IH, orb_false_r.
  destruct (Ascii.eqb c backslash) eqn:Hc; [reflexivity|done].
Qed.

(** X6.  Every pattern handed to [globSync], at any depth and for any
    input, is free of backslashes (line 120). *)
Theorem glob_patterns_have_no_backslash (W : World) (p : PartialPrompt)
    (basePath : string) (d : Z) :
  Forall globPatternClean (trace (processPrompt W p basePath d)).
Proof.
  apply processPrompt_trace_Forall; try done.
  intros s. apply replace_backslashes_clean.
Qed.

Lemma globCount_app (t1 t2 : list Event) :
  globCount (t1 ++ t2) = globCount t1 + globCount t2.
Proof. unfold globCount. by rewrite List.filter_app, length_app. Qed.

Lemma globCount_none (t : list Event) :
  Forall (fun e => isGlobEvent e = false) t → globCount t = 0.
Proof.
  unfold globCount. induction 1 as [|e t He _ IH]; [done|].
  cbn [List.filter]. by rewrite He.
Qed.

Lemma no_listing_when_exhausted (W : World) (p : PartialPrompt)
    (basePath : string) (d : Z) :
  (d ≤ 0)%Z →
  Forall (fun e => isGlobEvent e = false) (trace (processPrompt W p basePath d)).
Proof.
  intros Hd. rewrite processPrompt_unfold.
  destruct (raw p) as [r|]; [|constructor].
  destruct (is_set (function p)); [constructor|].
  rewrite emit_bind. constructor; [done|].
  destruct (maybeFilePath W r); cbn [negb].
  - rewrite emit_bind. constructor; [done|]. cbn zeta.
    replace (0 <? d)%Z with false by (symmetry; apply Z.ltb_ge; lia).
    rewrite andb_false_r.
    destruct (dispatch_trace W (parsePathOrGlob W basePath r) p)
      as [->|(f & sel & ->)]; by repeat constructor.
  - unfold callString. rewrite emit_bind. by repeat constructor.
Qed.

Lemma globCount_cons (e : Event) (t : list Event) :
  globCount (e :: t) = (if isGlobEvent e then 1 else 0) + globCount t.
Proof. unfold globCount. cbn [List.filter]. by destruct (isGlobEvent e). Qed.

Lemma globCount_emit {B} (e : Event) (m : M B) :
  globCount (trace (emit e ≫= fun _ => m))
  = (if isGlobEvent e then 1 else 0) + globCount (trace m).
Proof. rewrite emit_bind. unfold trace at 1. cbn [fst]. apply globCount_cons. Qed.

(** X7.  With a budget of one, the budget [readPrompts] uses, resolving a
    partial lists the file system at most once: a matched path that is itself
    a pattern is not expanded again.  With a budget of zero or less nothing
    is listed. *)
Theorem at_most_one_listing_per_partial (W : World) (p : PartialPrompt)
    (basePath : string) (d : Z) :
  (d ≤ 1)%Z →
  globCount (trace (processPrompt W p basePath d)) ≤ 1
  ∧ ((d ≤ 0)%Z → globCount (trace (processPrompt W p basePath d)) = 0).
Proof.
  intros Hd. split;
    [|intros H0; by apply globCount_none, no_listing_when_exhausted].
  destruct (Z.le_gt_cases d 0) as [H0|H0].
  { rewrite globCount_none; [lia|by apply no_listing_when_exhausted]. }
  assert (d = 1%Z) as -> by lia.
  rewrite processPrompt_unfold.
  destruct (raw p) as [r|]; [|cbn; lia].
  destruct (is_set (function p)); [cbn; lia|].
  rewrite globCount_emit. cbn [isGlobEvent].
  destruct (maybeFilePath W r); cbn [negb];
    [|unfold callString; rewrite globCount_emit; cbn; lia].
  rewrite globCount_emit. cbn [isGlobEvent]. cbn zeta. rewrite andb_true_r.
  destruct (isPathPattern _).
  - rewrite globCount_emit. cbn [isGlobEvent].
    rewrite (globCount_none (trace _)); [lia|].
    rewrite trace_bind.
    match goal with |- context [for_of ?xs ?a ?b] =>
      assert (Forall (fun e => isGlobEvent e = false) (trace (for_of xs a b)))
        as Hloop
    end.
    { apply for_of_trace_Forall. intros a x _.
      assert (Forall (fun e => isGlobEvent e = false)
                (trace (processPrompt W (rawOnly x) basePath (1 - 1)))) as Hx
        by (apply no_listing_when_exhausted; lia).
      rewrite trace_bind. destruct (result _); [|done].
      apply Forall_app; split; [done|constructor]. }
    destruct (result _) as [prompts|]; [|done].
    apply Forall_app; split; [done|].
    destruct (length prompts =? 0)%nat; [|constructor].
    unfold callString. rewrite trace_bind, emit_bind.
    destruct (result _); [apply Forall_app; split|]; by repeat constructor.
  - destruct (dispatch_trace W (parsePathOrGlob W basePath r) p)
      as [->|(f & sel & ->)]; cbn; lia.
Qed.

Lemma at_most_one_listing_per_partial_witness :
  globCount (trace (processPrompt Sample.world (rawOnly "prompts/*")
                      EmptyString 1)) ≤ 1.
Proof.
  exact (proj1 (at_most_one_listing_per_partial Sample.world
                  (rawOnly "prompts/*") EmptyString 1 (Z.le_refl 1))).
Defined.

(** X8.  The budget only matters for glob patterns: a partial whose raw
    is not decomposed as a pattern resolves the same way, trace included,
    under any two budgets. *)
Theorem budget_is_irrelevant_without_pattern (W : World) (p : PartialPrompt)
    (basePath : string) (d d' : Z) :
  (∀ r, raw p = Some r →
        isPathPattern (parsePathOrGlob W basePath r) = false) →
  processPrompt W p basePath d = processPrompt W p basePath d'.
Proof.
  intros Hp. rewrite !processPrompt_unfold.
  destruct (raw p) as [r|]; [|done].
  cbn zeta. by rewrite (Hp r eq_refl).
Qed.

Lemma budget_is_irrelevant_without_pattern_witness :
  processPrompt Sample.world (rawOnly "prompts/a.txt") EmptyString 0
  = processPrompt Sample.world (rawOnly "prompts/a.txt") EmptyString 7.
Proof.
  apply budget_is_irrelevant_without_pattern.
  intros r Hr. injection Hr as <-. reflexivity.
Defined.

(** X9.  The separator normalisation of line 120 removes every
    backslash, keeps the length, is idempotent, and leaves a string without
    backslashes unchanged. *)
Theorem replace_backslashes_normalizes (s : string) :
  has_backslash (replace_backslashes s) = false
  ∧ String.length (replace_backslashes s) = String.length s
  ∧ replace_backslashes (replace_backslashes s) = replace_backslashes s
  ∧ (has_backslash s = false → replace_backslashes s = s).
Proof.
  assert (∀ t, has_backslash t = false → replace_backslashes t = t) as Hfix.
  { induction t as [|c t IH]; [done|]. cbn [replace_backslashes has_backslash].
    intros [Hc Ht]%orb_false_elim. by rewrite Hc, IH. }
  repeat split.
  - apply replace_backslashes_clean.
  - induction s as [|c s IH]; [done|]. cbn. by rewrite IH.
  - apply Hfix, replace_backslashes_clean.
  - apply Hfix.
Qed.

Lemma replace_backslashes_normalizes_witness :
  replace_backslashes "prompts/*.txt" = "prompts/*.txt".
Proof.
  exact (proj2 (proj2 (proj2 (replace_backslashes_normalizes "prompts/*.txt")))
           eq_refl).
Defined.

(** ** Further properties of [readPrompts] *)

Lemma readOne_throw (W : World) (basePath : string)
    (acc : list Prompt * list string) (p : PartialPrompt) (e : Exn) :
  result (processPrompt W p basePath 1) = Throw e →
  readOne W basePath acc p = (trace (processPrompt W p basePath 1), Throw e).
Proof.
  intros Hp. unfold readOne.
  destruct (processPrompt W p basePath 1) as [t res].
  unfold result in Hp. cbn [snd] in Hp. subst res. by rewrite bind_throw.
Qed.

Lemma readOne_ok (W : World) (basePath : string)
    (acc : list Prompt * list string) (p : PartialPrompt)
    (batch : list Prompt) :
  result (processPrompt W p basePath 1) = Ok batch → batch ≠ [] →
  readOne W basePath acc p
  = (trace (processPrompt W p basePath 1),
     Ok (fold_left (collectPrompt W) batch acc)).
Proof.
  intros Hp Hne. unfold readOne.
  destruct (processPrompt W p basePath 1) as [t res].
  unfold result in Hp. cbn [snd] in Hp. subst res. rewrite bind_ok.
  destruct batch as [|x batch]; [done|].
  cbn [length Nat.eqb result trace fst snd mret M_ret]. by rewrite app_nil_r.
Qed.

Lemma read_loop_failure (W : World) (basePath : string)
    (pre post : list PartialPrompt) (p : PartialPrompt) (e : Exn)
    (acc : list Prompt * list string) :
  Forall (fun q => ∃ batch, resolvesTo W basePath q batch ∧ batch ≠ []) pre →
  result (processPrompt W p basePath 1) = Throw e →
  for_of (pre ++ p :: post) acc (readOne W basePath)
  = (flat_map (fun q => trace (processPrompt W q basePath 1)) pre
       ++ trace (processPrompt W p basePath 1),
     Throw e).
Proof.
  intros Hpre Hp. revert acc.
  induction Hpre as [|q pre (batch & Hq & Hne) _ IH]; intros acc;
    cbn [app for_of flat_map].
  - rewrite (readOne_throw W basePath acc p e Hp). by rewrite bind_throw.
  - rewrite (readOne_ok W basePath acc q batch Hq Hne).
    rewrite bind_ok, IH. cbn [result trace fst snd]. by rewrite app_assoc.
Qed.

(** X10.  An exception thrown while resolving a partial is the outcome of
    [readPrompts], unchanged, when every earlier partial resolved to at least
    one prompt; the trace of the run is the trace of the earlier partials
    followed by the trace of the failing one, so the later partials are not
    resolved and no warning is emitted. *)
Theorem resolver_failure_propagates (W : World) (input : PromptInput)
    (basePath : string) (pre post : list PartialPrompt) (p : PartialPrompt)
    (e : Exn) :
  normalizeInput W input = Ok (pre ++ p :: post) →
  Forall (fun q => ∃ batch, resolvesTo W basePath q batch ∧ batch ≠ []) pre →
  result (processPrompt W p basePath 1) = Throw e →
  readPrompts W input basePath =
  (flat_map (fun q => trace (processPrompt W q basePath 1)) pre
     ++ trace (processPrompt W p basePath 1),
   Throw e).
Proof.
  intros Hn Hpre Hp. unfold readPrompts. rewrite Hn.
  unfold lift. rewrite bind_ok. cbn beta. cbn [app].
  rewrite (read_loop_failure W basePath pre post p e) by done.
  by rewrite bind_throw.
Qed.

Lemma resolver_failure_propagates_witness :
  readPrompts Sample.world
    (InputList [ inl "prompts/a.txt";
                 inr {| raw := None; label := Some "unnamed";
                        function := None |};
                 inl "prompts/notes.xyz" ]) EmptyString
  = ([ EvClassify "prompts/a.txt"; EvDecompose EmptyString "prompts/a.txt";
       EvHandler FTxt "prompts/a.txt" (rawOnly "prompts/a.txt") None ],
     Throw (InvariantFailed "prompt.raw must be a string, but got undefined")).
Proof.
  apply (resolver_failure_propagates Sample.world _ EmptyString
           [rawOnly "prompts/a.txt"] [rawOnly "prompts/notes.xyz"]
           {| raw := None; label := Some "unnamed"; function := None |});
    try reflexivity.
  repeat constructor. eexists. split; [reflexivity|discriminate].
Defined.

Lemma read_all_inverse (W : World) (basePath : string)
    (ps : list PartialPrompt) (acc acc' : list Prompt * list string) :
  result (for_of ps acc (readOne W basePath)) = Ok acc' →
  ∃ batches,
    Forall2 (fun p batch => resolvesTo W basePath p batch ∧ batch ≠ []) ps batches
    ∧ fst acc' = fst acc ++ concat batches.
Proof.
  revert acc. induction ps as [|p ps IH]; intros acc; simpl.
  - intros [= <-]. exists []. split; [constructor|by rewrite app_nil_r].
  - rewrite result_bind, readOne_result.
    destruct (result (processPrompt W p basePath 1)) as [[|x batch]|e] eqn:Hp;
      [discriminate| |discriminate].
    intros Hrest. destruct (IH _ Hrest) as (batches & Hall & Hfst).
    exists ((x :: batch) :: batches). split.
    + constructor; [|done]. split; [exact Hp|discriminate].
    + rewrite Hfst, collect_fst. by rewrite <- app_assoc.
Qed.

(** X11.  Whenever [readPrompts] returns, every normalized partial
    resolved to a non-empty batch and the returned list is the concatenation
    of these batches in input order; in particular it holds at least one
    prompt per input partial. *)
Theorem successful_read_is_a_concatenation (W : World) (input : PromptInput)
    (basePath : string) (ps : list PartialPrompt) (prompts : list Prompt) :
  normalizeInput W input = Ok ps →
  result (readPrompts W input basePath) = Ok prompts →
  (∃ batches,
     Forall2 (fun p batch => resolvesTo W basePath p batch ∧ batch ≠ [])
       ps batches
     ∧ prompts = concat batches)
  ∧ length ps ≤ length prompts.
Proof.
  intros Hn. rewrite (readPrompts_result W basePath input ps Hn).
  destruct (result (for_of ps _ _)) as [acc'|e] eqn:Hloop; [|discriminate].
  intros [= <-].
  destruct (read_all_inverse W basePath ps _ _ Hloop) as (batches & Hall & Hfst).
  cbn in Hfst. split; [by exists batches|].
  rewrite Hfst. clear Hfst Hloop Hn.
  induction Hall as [|p batch ps batches [_ Hne] _ IH]; [done|].
  cbn [concat length]. rewrite length_app.
  destruct batch; [done|]. cbn [length]. lia.
Qed.

Lemma successful_read_is_a_concatenation_witness :
  2 ≤ length
        [ {| p_raw := "Hello {{name}}";
             p_label := Some "prompts/a.txt: Hello {{name}}";
             p_function := None |};
          {| p_raw := "Goodbye";
             p_label := Some "prompts/b.txt: Goodbye";
             p_function := None |};
          {| p_raw := "plain text"; p_label := Some "plain text";
             p_function := None |} ].
Proof.
  exact (proj2 (successful_read_is_a_concatenation Sample.world
                  (InputList [inl "prompts/*.txt"; inl "plain text"])
                  EmptyString _ _ eq_refl eq_refl)).
Defined.

Lemma collect_snd (W : World) (batch : list Prompt)
    (acc : list Prompt * list string) :
  snd (fold_left (collectPrompt W) batch acc) =
  snd acc ++ diagnosticNames W batch.
Proof.
  revert acc. unfold diagnosticNames.
  induction batch as [|x batch IH]; intros [prompts without].
  - cbn. destruct (getEnvBool W _); by rewrite app_nil_r.
  - cbn [fold_left]. rewrite IH. unfold collectPrompt. cbn [snd].
    unfold lacksVariables.
    destruct (getEnvBool W _) eqn:Hflag.
    + rewrite andb_false_r. by rewrite !app_nil_r.
    + rewrite andb_true_r. cbn [List.filter].
      destruct (length (extractVariablesFromTemplates W [p_raw x]) =? 0)%nat;
        [|done].
      cbn [map]. rewrite <- app_assoc. do 2 f_equal.
      unfold diagnosticName, truthy_str.
      destruct (p_label x) as [l|]; [|done].
      by destruct (l =? EmptyString)%string.
Qed.

Lemma diagnosticNames_nil (W : World) : diagnosticNames W [] = [].
Proof. unfold diagnosticNames. by destruct (getEnvBool W _). Qed.

Lemma diagnosticNames_app (W : World) (xs ys : list Prompt) :
  diagnosticNames W (xs ++ ys) = diagnosticNames W xs ++ diagnosticNames W ys.
Proof.
  unfold diagnosticNames. destruct (getEnvBool W _); [done|].
  by rewrite List.filter_app, map_app.
Qed.

Lemma read_loop_diagnostics (W : World) (basePath : string)
    (ps : list PartialPrompt) (acc acc' : list Prompt * list string) :
  snd acc = diagnosticNames W (fst acc) →
  result (for_of ps acc (readOne W basePath)) = Ok acc' →
  snd acc' = diagnosticNames W (fst acc').
Proof.
  revert acc. induction ps as [|p ps IH]; intros acc Hacc; simpl.
  - by intros [= <-].
  - rewrite result_bind, readOne_result.
    destruct (result (processPrompt W p basePath 1)) as [[|x batch]|e];
      [discriminate| |discriminate].
    apply IH. rewrite collect_snd, collect_fst, diagnosticNames_app.
    by rewrite Hacc.
Qed.

Lemma read_loop_never_warns (W : World) (basePath : string)
    (ps : list PartialPrompt) (acc : list Prompt * list string) :
  Forall (fun e => isWarnEvent e = false)
    (trace (for_of ps acc (readOne W basePath))).
Proof.
  apply for_of_trace_Forall. intros a p _. unfold readOne.
  assert (Forall (fun e => isWarnEvent e = false)
            (trace (processPrompt W p basePath 1))) as Hp
    by (by apply processPrompt_trace_Forall).
  rewrite trace_bind. destruct (result _) as [batch|]; [|done].
  apply Forall_app; split; [done|].
  destruct (length batch =? 0)%nat; constructor.
Qed.

Lemma filter_warn_none (t : list Event) :
  Forall (fun e => isWarnEvent e = false) t → List.filter isWarnEvent t = [].
Proof.
  induction 1 as [|e t He _ IH]; [done|]. cbn [List.filter]. by rewrite He.
Qed.

Lemma readPrompts_eq (W : World) (input : PromptInput) (basePath : string)
    (ps : list PartialPrompt) :
  normalizeInput W input = Ok ps →
  readPrompts W input basePath =
  match result (for_of ps ([], []) (readOne W basePath)) with
  | Ok (prompts, without) =>
      (trace (for_of ps ([], []) (readOne W basePath))
         ++ (if (0 <? length without)%nat
             then [EvWarn (warning_message without)] else []),
       Ok prompts)
  | Throw e => (trace (for_of ps ([], []) (readOne W basePath)), Throw e)
  end.
Proof.
  intros Hn. unfold readPrompts. rewrite Hn.
  unfold lift. rewrite bind_ok. cbn beta. cbn [app].
  destruct (for_of ps ([], []) (readOne W basePath))
    as [t [[prompts without]|e]]; [|by rewrite bind_throw].
  rewrite bind_ok. cbn [result trace fst snd].
  destruct (0 <? length without)%nat.
  - by rewrite emit_bind.
  - cbn. by rewrite app_nil_r.
Qed.

(** X12.  [readPrompts] warns at most once: when it returns, the
    warnings of its trace are exactly one warning built from the names (label,
    or first 50 code units of the text) of the returned prompts in which the
    extractor finds no variable, in order, and none when there is no such
    prompt or the suppression flag is set; when it throws it has not warned. *)
Theorem warning_reports_prompts_without_variables (W : World)
    (input : PromptInput) (basePath : string) :
  match result (readPrompts W input basePath) with
  | Ok prompts =>
      List.filter isWarnEvent (trace (readPrompts W input basePath)) =
      match diagnosticNames W prompts with
      | [] => []
      | names => [EvWarn (warning_message names)]
      end
  | Throw _ =>
      List.filter isWarnEvent (trace (readPrompts W input basePath)) = []
  end.
Proof.
  destruct (normalizeInput W input) as [ps|e] eqn:Hn;
    [|unfold readPrompts; by rewrite Hn].
  rewrite (readPrompts_eq W input basePath ps Hn).
  pose proof (read_loop_never_warns W basePath ps ([], [])) as Hquiet.
  apply filter_warn_none in Hquiet.
  destruct (result (for_of ps _ _)) as [[prompts without]|e] eqn:Hloop;
    cbn [result trace fst snd]; [|done].
  rewrite List.filter_app, Hquiet. cbn [app].
  pose proof (read_loop_diagnostics W basePath ps ([], []) _
                (eq_sym (diagnosticNames_nil W)) Hloop) as Hw.
  cbn [fst snd] in Hw. subst without.
  by destruct (diagnosticNames W prompts) as [|n names].
Qed.

(** X13.  With the flag [PROMPTFOO_DISABLE_NO_VARIABLE_WARNING] set,
    no run of [readPrompts] warns, whatever the input. *)
Theorem suppression_flag_silences_the_warning (W : World)
    (input : PromptInput) (basePath : string) :
  getEnvBool W "PROMPTFOO_DISABLE_NO_VARIABLE_WARNING" = true →
  Forall (fun e => isWarnEvent e = false) (trace (readPrompts W input basePath)).
Proof.
  intros Hflag.
  destruct (normalizeInput W input) as [ps|e] eqn:Hn;
    [|unfold readPrompts; rewrite Hn; constructor].
  rewrite (readPrompts_eq W input basePath ps Hn).
  pose proof (read_loop_never_warns W basePath ps ([], [])) as Hquiet.
  destruct (result (for_of ps _ _)) as [[prompts without]|e] eqn:Hloop;
    cbn [trace fst]; [|done].
  apply Forall_app. split; [done|].
  pose proof (read_loop_diagnostics W basePath ps ([], []) _
                (eq_sym (diagnosticNames_nil W)) Hloop) as Hw.
  cbn [fst snd] in Hw. unfold diagnosticNames in Hw. rewrite Hflag in Hw.
  subst without. constructor.
Qed.

Lemma suppression_flag_silences_the_warning_witness :
  Forall (fun e => isWarnEvent e = false)
    (trace (readPrompts
              (withDiagnostics Sample.world Sample.variablesOf (fun _ => true))
              (InputList [inl "prompts/*.txt"; inl "plain text"]) EmptyString)).
Proof.
  exact (suppression_flag_silences_the_warning
           (withDiagnostics Sample.world Sample.variablesOf (fun _ => true))
           (InputList [inl "prompts/*.txt"; inl "plain text"]) EmptyString
           eq_refl).
Defined.

Lemma for_of_ext {A X} (xs : list X) (acc : A) (f g : A → X → M A) :
  (∀ a x, f a x = g a x) → for_of xs acc f = for_of xs acc g.
Proof.
  intros Hfg. revert acc. induction xs as [|x xs IH]; intros acc; simpl; [done|].
  rewrite Hfg.
  destruct (g acc x) as [t [a|e]]; [|done].
  by rewrite !bind_ok, IH.
Qed.

Lemma bind_cong {A B} (m m' : M A) (f g : A → M B) :
  m = m' → (∀ a, f a = g a) → m ≫= f = m' ≫= g.
Proof.
  intros <- Hfg. destruct m as [t [a|e]]; [|done].
  by rewrite !bind_ok, Hfg.
Qed.

Lemma processPrompt_withDiagnostics (W : World)
    (extract : list string → list string) (env : string → bool)
    (p : PartialPrompt) (basePath : string) (d : Z) :
  processPrompt (withDiagnostics W extract env) p basePath d
  = processPrompt W p basePath d.
Proof.
  unfold processPrompt. generalize (Z.to_nat d) as n. intros n. revert p.
  induction n as [|n IH]; intros p; [reflexivity|].
  cbn [processPrompt_depth].
  destruct (raw p) as [r|]; [|done].
  destruct (is_set (function p)); [done|].
  apply bind_cong; [done|intros _].
  change (maybeFilePath (withDiagnostics W extract env)) with (maybeFilePath W).
  destruct (maybeFilePath W r); cbn [negb]; [|done].
  apply bind_cong; [done|intros _].
  change (parsePathOrGlob (withDiagnostics W extract env))
    with (parsePathOrGlob W).
  cbn zeta. destruct (isPathPattern _); [|reflexivity].
  apply bind_cong; [done|intros _].
  change (globSync (withDiagnostics W extract env)) with (globSync W).
  apply bind_cong; [|done].
  apply for_of_ext. intros a x. by rewrite IH.
Qed.

Lemma read_loop_withDiagnostics (W : World)
    (extract : list string → list string) (env : string → bool)
    (basePath : string) (ps : list PartialPrompt)
    (acc acc' : list Prompt * list string) :
  fst acc = fst acc' →
  match result (for_of ps acc (readOne (withDiagnostics W extract env) basePath)),
        result (for_of ps acc' (readOne W basePath)) with
  | Ok a, Ok a' => fst a = fst a'
  | Throw e, Throw e' => e = e'
  | _, _ => False
  end.
Proof.
  revert acc acc'. induction ps as [|p ps IH]; intros acc acc' Hacc; simpl.
  - done.
  - rewrite !result_bind, !readOne_result, processPrompt_withDiagnostics.
    destruct (result (processPrompt W p basePath 1)) as [[|x batch]|e];
      [done| |done].
    apply IH. by rewrite !collect_fst, Hacc.
Qed.

(** X14.  The diagnostics are observation only: replacing the variable
    extractor and the environment lookup by any others leaves the outcome of
    [readPrompts] (the prompts returned or the exception thrown) unchanged. *)
Theorem diagnostics_do_not_change_the_result (W : World)
    (extract : list string → list string) (env : string → bool)
    (input : PromptInput) (basePath : string) :
  result (readPrompts (withDiagnostics W extract env) input basePath)
  = result (readPrompts W input basePath).
Proof.
  destruct (normalizeInput W input) as [ps|e] eqn:Hn.
  - rewrite (readPrompts_result W basePath input ps Hn).
    rewrite (readPrompts_result (withDiagnostics W extract env) basePath
               input ps Hn).
    pose proof (read_loop_withDiagnostics W extract env basePath ps
                  ([], []) ([], []) eq_refl) as H.
    destruct (result (for_of ps _ (readOne (withDiagnostics _ _ _) _)));
      destruct (result (for_of ps _ (readOne W _))); try done; congruence.
  - unfold readPrompts.
    change (normalizeInput (withDiagnostics W extract env)) with (normalizeInput W).
    by rewrite Hn.
Qed.

(** ** Further properties of [readProviderPromptMap] *)

(** X15.  Entries of the provider list that are not objects (bare
    identifiers, functions) contribute nothing: the map is the one obtained
    from the object entries alone. *)
Theorem bare_entries_are_skipped (entries : list ProviderEntry)
    (parsedPrompts : list Prompt) :
  readProviderPromptMap {| providers := ProvidersList entries |} parsedPrompts
  = readProviderPromptMap
      {| providers := ProvidersList (List.filter isObjectEntry entries) |}
      parsedPrompts.
Proof.
  unfold readProviderPromptMap. cbn [providers].
  generalize (∅ : gmap string JsVal) as ret.
  induction entries as [|entry entries IH]; intros ret; [done|].
  destruct entry as [id|src| |fields];
    cbn [List.filter isObjectEntry res_for_of].
  - apply IH.
  - apply IH.
  - done.
  - destruct (mapProvider _ ret (PObject fields)) as [ret'|e]; [apply IH|done].
Qed.

(** X16.  An object entry with a truthy [id] never throws; afterwards
    its id, and its label when truthy, both map to the entry's [prompts] if
    truthy and to all labels otherwise, and every other key of the map is as
    it was. *)
Theorem explicit_entry_maps_id_and_label (allPrompts : JsVal)
    (ret : gmap string JsVal) (fields : list (string * JsVal)) :
  truthy (field "id" fields) = true →
  ∃ m',
    mapProvider allPrompts ret (PObject fields) = Ok m'
    ∧ m' !! js_toString (field "id" fields)
      = Some (js_or (field "prompts" fields) allPrompts)
    ∧ (truthy (field "label" fields) = true →
       m' !! js_toString (field "label" fields)
       = Some (js_or (field "prompts" fields) allPrompts))
    ∧ (∀ k, k ≠ js_toString (field "id" fields) →
            (truthy (field "label" fields) = false
             ∨ k ≠ js_toString (field "label" fields)) →
            m' !! k = ret !! k).
Proof.
  intros Hid. unfold mapProvider. rewrite Hid.
  unfold invariant, mbind, Res_bind, mret, Res_ret.
  destruct (truthy (field "label" fields)) eqn:Hl; eexists;
    (split; [reflexivity|]); repeat split.
  - destruct (decide (js_toString (field "label" fields)
                      = js_toString (field "id" fields))) as [->|Hne].
    + apply lookup_insert_eq.
    + rewrite lookup_insert_ne by done. apply lookup_insert_eq.
  - intros _. apply lookup_insert_eq.
  - intros k Hk [Hf|Hk']; [done|].
    rewrite lookup_insert_ne by done. by rewrite lookup_insert_ne.
  - apply lookup_insert_eq.
  - done.
  - intros k Hk _. by rewrite lookup_insert_ne.
Qed.

Lemma explicit_entry_maps_id_and_label_witness :
  ∃ m',
    mapProvider (VArr [VStr "p1"; VStr "p2"]) ∅
      (PObject [("id", VStr "openai:gpt-4"); ("label", VStr "GPT-4")]) = Ok m'
    ∧ m' !! "openai:gpt-4" = Some (VArr [VStr "p1"; VStr "p2"])
    ∧ m' !! "GPT-4" = Some (VArr [VStr "p1"; VStr "p2"]).
Proof.
  destruct (explicit_entry_maps_id_and_label (VArr [VStr "p1"; VStr "p2"]) ∅
              [("id", VStr "openai:gpt-4"); ("label", VStr "GPT-4")] eq_refl)
    as (m' & Hm & Hid & Hlabel & _).
  exists m'. repeat split; [exact Hm|exact Hid|exact (Hlabel eq_refl)].
Defined.

Lemma mapProvider_throws (allPrompts : JsVal) (ret : gmap string JsVal)
    (entry : ProviderEntry) (e : Exn) :
  mapProvider allPrompts ret entry = Throw e
  ↔ malformedEntry entry ∧ e = entryError entry.
Proof.
  destruct entry as [id|src| |fields]; cbn [mapProvider malformedEntry entryError];
    [by split; [|intros []]..| |].
  - cbn [getProp]. unfold mbind, Res_bind. split.
    + by intros [= <-].
    + by intros [_ ->].
  - destruct (truthy (field "id" fields)) eqn:Hid.
    + unfold invariant, mbind, Res_bind, mret, Res_ret.
      destruct (truthy (field "label" fields)); split;
        [done|by intros [[] _]|done|by intros [[] _]].
    + destruct (field (js_toString (firstKey fields)) fields) eqn:Hinner;
        cbn [getProp]; unfold mbind, Res_bind, mret, Res_ret;
        (split; [|intros [[_ [H|H]] ->]]); try done.
      * intros [= <-]. split; [by split; [|left]|done].
      * intros [= <-]. split; [by split; [|right]|done].
Qed.

Lemma malformedEntry_dec (entry : ProviderEntry) :
  malformedEntry entry ∨ ¬ malformedEntry entry.
Proof.
  destruct (mapProvider VUndef ∅ entry) as [m|e] eqn:H.
  - right. intros Hbad.
    assert (mapProvider VUndef ∅ entry = Throw (entryError entry)) as H'
      by (by apply mapProvider_throws).
    congruence.
  - left. by apply mapProvider_throws in H as [H _].
Qed.

(** X17.  [readProviderPromptMap] throws on a provider list exactly when some
    entry is malformed: it is [null], or it is an object without a truthy
    [id] whose first key holds [undefined] (the empty object among them) or
    [null].  The exception is the one of the first malformed entry, the
    [TypeError] of reading [id] on the [null] or [undefined] value it holds;
    no partial map is returned. *)
Theorem mapper_fails_exactly_on_malformed_entries
    (entries : list ProviderEntry) (parsedPrompts : list Prompt) :
  (Exists malformedEntry entries ↔
   ∃ e, readProviderPromptMap {| providers := ProvidersList entries |}
          parsedPrompts = Throw e)
  ∧ (∀ e,
       readProviderPromptMap {| providers := ProvidersList entries |}
         parsedPrompts = Throw e ↔
       ∃ before entry after,
         entries = before ++ entry :: after
         ∧ Forall (fun x => ¬ malformedEntry x) before
         ∧ malformedEntry entry
         ∧ e = entryError entry).
Proof.
  unfold readProviderPromptMap. cbn [providers].
  generalize (∅ : gmap string JsVal) as ret.
  assert (∀ ret e,
    res_for_of entries ret (mapProvider (VArr (map labelValue parsedPrompts)))
      = Throw e ↔
    ∃ before entry after,
      entries = before ++ entry :: after
      ∧ Forall (fun x => ¬ malformedEntry x) before
      ∧ malformedEntry entry
      ∧ e = entryError entry) as Hfirst.
  { induction entries as [|entry entries IH]; intros ret e.
    - split; [done|]. intros (before & x & after & Heq & _).
      by destruct before.
    - cbn [res_for_of].
      destruct (mapProvider _ ret entry) as [ret'|e'] eqn:Hstep;
        unfold mbind, Res_bind; fold (@res_for_of (gmap string JsVal)).
      + assert (¬ malformedEntry entry) as Hgood.
        { intros Hbad.
          assert (mapProvider (VArr (map labelValue parsedPrompts)) ret entry
                  = Throw (entryError entry)) as Hthrow
            by (by apply mapProvider_throws).
          congruence. }
        rewrite IH. split.
        * intros (before & x & after & -> & Hpre & Hbad & ->).
          exists (entry :: before), x, after. repeat split; try done.
          by constructor.
        * intros (before & x & after & Heq & Hpre & Hbad & ->).
          destruct before as [|b before]; cbn in Heq.
          -- injection Heq as <- <-. done.
          -- injection Heq as <- ->. apply Forall_cons in Hpre as [_ Hpre].
             by exists before, x, after.
      + apply mapProvider_throws in Hstep as [Hbad ->]. split.
        * intros [= <-]. exists [], entry, entries. repeat split; try done.
        * intros (before & x & after & Heq & Hpre & Hbad' & ->).
          destruct before as [|b before]; cbn in Heq.
          -- by injection Heq as <- <-.
          -- injection Heq as <- ->. apply Forall_cons in Hpre as [Hb _].
             done. }
  intros ret. split; [|intros e; apply Hfirst].
  split.
  - intros Hex.
    assert (∃ before entry after,
              entries = before ++ entry :: after
              ∧ Forall (fun x => ¬ malformedEntry x) before
              ∧ malformedEntry entry) as (before & entry & after & Heq & Hpre & Hbad).
    { clear Hfirst. induction Hex as [entry entries Hbad|entry entries _ IH].
      - exists [], entry, entries. by repeat split.
      - destruct (malformedEntry_dec entry) as [Hbad|Hgood].
        + exists [], entry, entries. by repeat split.
        + destruct IH as (before & x & after & -> & Hpre & Hbad).
          exists (entry :: before), x, after. repeat split; try done.
          by constructor. }
    exists (entryError entry). apply Hfirst. by exists before, entry, after.
  - intros [e He]. apply Hfirst in He as (before & entry & after & -> & _ & Hbad & _).
    apply Exists_app. right. by apply Exists_cons_hd.
Qed.

Lemma mapper_fails_exactly_on_malformed_entries_witness :
  readProviderPromptMap
    {| providers :=
         ProvidersList
           [ PObject [("id", VStr "x"); ("prompts", VArr [VStr "p1"])];
             PObject [("openai:gpt-4", VNull)];
             PObject [] ] |}
    [ {| p_raw := "Hello"; p_label := Some "p1"; p_function := None |} ]
  = Throw null_id_error.
Proof.
  apply (proj2 (mapper_fails_exactly_on_malformed_entries _ _)).
  exists [PObject [("id", VStr "x"); ("prompts", VArr [VStr "p1"])]],
         (PObject [("openai:gpt-4", VNull)]), [PObject []].
  repeat split.
  - repeat constructor. by intros [H _].
  - by right.
Defined.

Lemma mapProvider_keeps_keys (allPrompts : JsVal) (ret m : gmap string JsVal)
    (entry : ProviderEntry) (k : string) :
  mapProvider allPrompts ret entry = Ok m →
  is_Some (ret !! k) → is_Some (m !! k).
Proof.
  assert (∀ (j : string) (v : JsVal) (m0 : gmap string JsVal),
            is_Some (m0 !! k) → is_Some (<[j := v]> m0 !! k)) as Hins.
  { intros j v m0 H. destruct (decide (j = k)) as [->|Hne].
    - rewrite lookup_insert_eq. eauto.
    - by rewrite lookup_insert_ne. }
  destruct entry as [id|src| |fields]; cbn [mapProvider];
    [by intros [= <-]..|done|].
  destruct (truthy (field "id" fields)).
  - unfold invariant, mbind, Res_bind, mret, Res_ret.
    destruct (truthy (field "label" fields)); intros [= <-] H; auto.
  - destruct (getProp _ "id") as [innerId|e]; [|done].
    unfold mbind at 1, Res_bind at 1.
    destruct (getProp _ "prompts") as [innerPrompts|e]; [|done].
    unfold mbind, Res_bind, mret, Res_ret. intros [= <-] H. auto.
Qed.

(** X18.  Entries never remove a mapping: every key mapped after a
    prefix of the provider list is still mapped after the whole list. *)
Theorem later_entries_keep_earlier_keys (entries later : list ProviderEntry)
    (parsedPrompts : list Prompt) (m1 m : gmap string JsVal) (k : string) :
  readProviderPromptMap {| providers := ProvidersList entries |} parsedPrompts
  = Ok m1 →
  readProviderPromptMap {| providers := ProvidersList (entries ++ later) |}
    parsedPrompts = Ok m →
  is_Some (m1 !! k) → is_Some (m !! k).
Proof.
  unfold readProviderPromptMap. cbn [providers].
  rewrite res_for_of_app. intros ->. unfold mbind at 1, Res_bind at 1.
  revert m1. induction later as [|entry later IH]; intros m1.
  - by intros [= <-].
  - cbn [res_for_of].
    destruct (mapProvider _ m1 entry) as [m2|e] eqn:Hstep; [|done].
    unfold mbind, Res_bind; fold (@res_for_of (gmap string JsVal)).
    intros Hrest Hk. apply (IH m2 Hrest).
    by eapply mapProvider_keeps_keys.
Qed.

Lemma later_entries_keep_earlier_keys_witness :
  is_Some
    (({[ "x" := VArr [VStr "p2"] ]} : gmap string JsVal) !! "x").
Proof.
  apply (later_entries_keep_earlier_keys
           [PObject [("id", VStr "x"); ("prompts", VArr [VStr "p1"])]]
           [PObject [("id", VStr "x"); ("prompts", VArr [VStr "p2"])]]
           [] {[ "x" := VArr [VStr "p1"] ]} _ "x").
  - reflexivity.
  - by vm_compute.
  - rewrite lookup_singleton_eq. by eexists.
Defined.
